(** * supervisual: the snapshot-to-graph mapper ([dataMapper], [mapNodes], [mapEdges])

    A shallow embedding of the TypeScript mapper that turns one subgraph
    snapshot into the nodes and edges of the diagram, and the properties of
    its node and edge builders. *)

From Stdlib Require Import ZArith NArith List String Ascii Bool Lia.
From Stdlib Require Import Permutation DecimalString.
Import ListNotations.

Open Scope string_scope.
Open Scope list_scope.
Open Scope Z_scope.

(* ================================================================== *)
(** * The JavaScript runtime the mapper relies on *)
(* ================================================================== *)

Module JS.

(** A JS [number] restricted to the values the mapper can meet: integral
    doubles (block numbers, unix timestamps, array lengths), the two
    infinities that [Math.min()] and [Math.max()] return on no argument,
    and [NaN]. *)
Inductive number : Type :=
| NaN
| NegInf
| Fin (z : Z)
| PosInf.

(** A scalar as the query layer delivers it: the subgraph's [BigInt] and
    [BigDecimal] scalars arrive as strings, its [Int] scalars as numbers. *)
Inductive jsval : Type :=
| VStr (s : string)
| VNum (n : number).

(** The exceptions that can leave the mapper. [DivisionByZero] is the
    [RangeError] a bigint division by [0n] raises; it is kept apart from
    the [RangeError] that [BigInt] raises on a non-integral number. *)
Inductive exn : Type :=
| TypeError
| SyntaxError
| RangeError
| DivisionByZero
| InvalidAddressError.

Inductive result (A : Type) : Type :=
| Ok (a : A)
| Throw (e : exn).

Arguments Ok {A} a.
Arguments Throw {A} e.

Definition bind {A B : Type} (m : result A) (k : A -> result B) : result B :=
  match m with
  | Ok a => k a
  | Throw e => Throw e
  end.

Notation "x <- m ;; k" := (bind m (fun x => k))
  (at level 61, m at next level, right associativity).

(** [Array.prototype.map] with a callback that may throw: the callbacks run
    left to right and the first exception aborts the whole map. *)
Fixpoint mapM {A B : Type} (f : A -> result B) (l : list A) : result (list B) :=
  match l with
  | [] => Ok []
  | x :: l' =>
      y <- f x ;;
      ys <- mapM f l' ;;
      Ok (y :: ys)
  end.

(** ** Numbers *)

Definition min2 (a b : number) : number :=
  match a, b with
  | NaN, _ | _, NaN => NaN
  | NegInf, _ | _, NegInf => NegInf
  | PosInf, x | x, PosInf => x
  | Fin x, Fin y => Fin (Z.min x y)
  end.

Definition max2 (a b : number) : number :=
  match a, b with
  | NaN, _ | _, NaN => NaN
  | PosInf, _ | _, PosInf => PosInf
  | NegInf, x | x, NegInf => x
  | Fin x, Fin y => Fin (Z.max x y)
  end.

(** [Math.min(...l)]: the fold starts from [+Infinity], which is therefore
    the value on an empty argument list. The spread passes the elements as
    call arguments; the engine's bound on their number, past which the
    call raises a [RangeError], is left out, so nothing below concludes
    from this function that the node builder returns. *)
Definition Math_min (l : list number) : number := fold_left min2 l PosInf.

(** [Math.max(...l)]: starts from [-Infinity]; the same bound on the
    number of arguments is left out. *)
Definition Math_max (l : list number) : number := fold_left max2 l NegInf.

(** [a ?? b]: the right operand is taken only when the left one is [null]
    or [undefined], written [None] here. *)
Definition coalesce {A : Type} (a : option A) (b : A) : A :=
  match a with
  | Some v => v
  | None => b
  end.

(** Truthiness of an optional boolean field ([undefined] is falsy). *)
Definition truthy (b : option bool) : bool :=
  match b with
  | Some true => true
  | _ => false
  end.

(** Bigint division [a / b]: truncates toward zero, raises on [0n]. *)
Definition bigint_div (a b : Z) : result Z :=
  if b =? 0 then Throw DivisionByZero else Ok (Z.quot a b).

(** ** Strings and arrays *)

(** [[a, b].sort()]: the default comparison orders strings by code unit;
    the sort is stable, so the pair is swapped only when [b < a]. *)
Definition sort2 (a b : string) : list string :=
  if String.ltb b a then [b; a] else [a; b].

(** [l.join(sep)]. *)
Definition join (sep : string) (l : list string) : string := String.concat sep l.

(** [l.indexOf(x)], [-1] when [x] is not an element. *)
Fixpoint indexOf {A : Type} (eqb : A -> A -> bool) (x : A) (l : list A) : Z :=
  match l with
  | [] => -1
  | y :: l' =>
      if eqb y x then 0
      else let i := indexOf eqb x l' in
           if i <? 0 then -1 else 1 + i
  end.

(** [l.flat()] on an array of arrays. *)
Definition flat {A : Type} (l : list (list A)) : list A := List.concat l.

(** [l.length]. *)
Definition length_of {A : Type} (l : list A) : Z := Z.of_nat (List.length l).

(** ** Objects used as dictionaries *)

(** An object is kept as the list of its own properties in creation
    order. *)
Definition object (V : Type) : Type := list (string * V).

(** [o[k]] on own properties. *)
Fixpoint get {V : Type} (o : object V) (k : string) : option V :=
  match o with
  | [] => None
  | (k', v) :: o' => if String.eqb k k' then Some v else get o' k
  end.

(** One step of lodash's [groupBy]: push onto the array stored under the
    key when the key is already an own property, else create the property
    with a one-element array. *)
Fixpoint pushGroup {A : Type} (k : string) (x : A) (o : object (list A))
  : object (list A) :=
  match o with
  | [] => [(k, [x])]
  | (k', g) :: o' =>
      if String.eqb k k' then (k', g ++ [x]) :: o'
      else (k', g) :: pushGroup k x o'
  end.

(** lodash [groupBy(l, f)]. *)
Definition groupBy {A : Type} (l : list A) (f : A -> string) : object (list A) :=
  fold_left (fun o x => pushGroup (f x) x o) l [].

(** A property key is an array index when it is the canonical decimal
    form of an integer in [0, 2^32 - 2]. *)
Definition arrayIndex (k : string) : option N :=
  match NilEmpty.uint_of_string k with
  | Some u =>
      let n := N.of_uint u in
      if (String.eqb (NilEmpty.string_of_uint (N.to_uint n)) k
          && (n <=? 4294967294)%N)%bool
      then Some n else None
  | None => None
  end.

Definition isArrayIndex {V : Type} (e : string * V) : bool :=
  match arrayIndex (fst e) with
  | Some _ => true
  | None => false
  end.

Definition indexKey {V : Type} (e : string * V) : N :=
  match arrayIndex (fst e) with
  | Some n => n
  | None => 0%N
  end.

Fixpoint insertByIndex {V : Type} (e : string * V) (l : list (string * V))
  : list (string * V) :=
  match l with
  | [] => [e]
  | e' :: l' =>
      if (indexKey e <=? indexKey e')%N then e :: l
      else e' :: insertByIndex e l'
  end.

Definition sortByIndex {V : Type} (l : list (string * V)) : list (string * V) :=
  fold_right insertByIndex [] l.

(** [Object.entries(o)]: own properties whose key is an array index come
    first, in ascending numeric order; the others follow in creation
    order. *)
Definition Object_entries {V : Type} (o : object V) : list (string * V) :=
  sortByIndex (filter isArrayIndex o)
  ++ filter (fun e => negb (isArrayIndex e)) o.

End JS.

Import JS.

(* ================================================================== *)
(** * The input snapshot ([AllRelevantEntitiesQuery]) *)
(* ================================================================== *)

(** The generated query type is read off the fields the mapper accesses.
    Every numeric field is a raw scalar; the mapper converts it with
    [Number] or [BigInt] where it uses it. *)

Module Token.
Record t : Type := { id : string; symbol : string }.
End Token.

(** The [account], [sender] and [receiver] of a relation. *)
Module AccountRef.
Record t : Type := { id : string; isSuperApp : bool }.
End AccountRef.

(** The [pool] of a membership or distributorship. *)
Module PoolRef.
Record t : Type := {
  id : string;
  token : Token.t;
  flowRate : jsval;
  totalUnits : jsval;
  createdAtBlockNumber : jsval;
  createdAtTimestamp : jsval;
  updatedAtBlockNumber : jsval;
  updatedAtTimestamp : jsval
}.
End PoolRef.

Module PoolMember.
Record t : Type := {
  account : AccountRef.t;
  pool : PoolRef.t;
  units : jsval;
  createdAtBlockNumber : jsval;
  createdAtTimestamp : jsval;
  updatedAtBlockNumber : jsval;
  updatedAtTimestamp : jsval
}.
End PoolMember.

Module PoolDistributor.
Record t : Type := {
  account : AccountRef.t;
  pool : PoolRef.t;
  flowRate : jsval;
  createdAtBlockNumber : jsval;
  createdAtTimestamp : jsval;
  updatedAtBlockNumber : jsval;
  updatedAtTimestamp : jsval
}.
End PoolDistributor.

Module Stream.
Record t : Type := {
  sender : AccountRef.t;
  receiver : AccountRef.t;
  token : Token.t;
  currentFlowRate : jsval;
  createdAtBlockNumber : jsval;
  createdAtTimestamp : jsval;
  updatedAtBlockNumber : jsval;
  updatedAtTimestamp : jsval
}.
End Stream.

Module AccountTokenSnapshot.
Record t : Type := {
  createdAtBlockNumber : jsval;
  createdAtTimestamp : jsval;
  updatedAtBlockNumber : jsval;
  updatedAtTimestamp : jsval
}.
End AccountTokenSnapshot.

Module Account.
Record t : Type := {
  id : string;
  isSuperApp : bool;
  createdAtBlockNumber : jsval;
  createdAtTimestamp : jsval;
  updatedAtBlockNumber : jsval;
  updatedAtTimestamp : jsval;
  accountTokenSnapshots : list AccountTokenSnapshot.t
}.
End Account.

Module Pool.
Record t : Type := {
  id : string;
  createdAtBlockNumber : jsval;
  createdAtTimestamp : jsval;
  updatedAtBlockNumber : jsval;
  updatedAtTimestamp : jsval;
  poolMembers : list PoolMember.t;
  poolDistributors : list PoolDistributor.t
}.
End Pool.

(** [_meta.block]; [timestamp] is nullable in the schema. *)
Module Block.
Record t : Type := { number : jsval; timestamp : option jsval }.
End Block.

Module Meta.
Record t : Type := { block : Block.t }.
End Meta.

Module Query.
Record t : Type := {
  selectedAccounts : list Account.t;
  selectedPools : list Pool.t;
  poolMembers : list PoolMember.t;
  poolDistributors : list PoolDistributor.t;
  streams : list Stream.t;
  _meta : option Meta.t
}.
End Query.

(* ================================================================== *)
(** * The output graph *)
(* ================================================================== *)

(** [PartialNode["data"]]: the three flags may be left [undefined]. *)
Module NodeData.
Record t : Type := {
  isPool : option bool;
  isSuperApp : option bool;
  isSelected : option bool;
  createdAtBlockNumber : number;
  createdAtTimestamp : number;
  updatedAtBlockNumber : number;
  updatedAtTimestamp : number
}.
End NodeData.

Module PartialNode.
Record t : Type := { id : string; data : NodeData.t }.
End PartialNode.

Module Position.
Record t : Type := { x : Z; y : Z }.
End Position.

(** [MyNode["data"]]: the partial data spread out, then [chain], [address]
    and [label]. *)
Module MyNodeData.
Record t : Type := {
  isPool : option bool;
  isSuperApp : option bool;
  isSelected : option bool;
  createdAtBlockNumber : number;
  createdAtTimestamp : number;
  updatedAtBlockNumber : number;
  updatedAtTimestamp : number;
  chain : number;
  address : string;
  label : string
}.
End MyNodeData.

Module MyNode.
Record t : Type := {
  id : string;
  data : MyNodeData.t;
  type : string;
  position : Position.t
}.
End MyNode.

Module EdgeToken.
Record t : Type := { id : string; symbol : string }.
End EdgeToken.

(** [PartialEdge["data"]]; [flowRate] is a bigint. *)
Module EdgeData.
Record t : Type := { token : EdgeToken.t; flowRate : Z }.
End EdgeData.

Module PartialEdge.
Record t : Type := {
  id : string;
  source : string;
  target : string;
  data : EdgeData.t
}.
End PartialEdge.

Module Something.
Record t : Type := { length : Z; index : Z }.
End Something.

Module MyEdgeData.
Record t : Type := {
  token : EdgeToken.t;
  flowRate : Z;
  something : Something.t
}.
End MyEdgeData.

Module MyEdge.
Record t : Type := {
  id : string;
  source : string;
  target : string;
  animated : bool;
  type : string;
  data : MyEdgeData.t
}.
End MyEdge.

(** A [Date]: its time value in milliseconds, [NaN] for an invalid date. *)
Module Date.
Record t : Type := { getTime : number }.
End Date.

Module LatestBlock.
Record t : Type := { number : JS.number; timestamp : Date.t }.
End LatestBlock.

Module MyMappedData.
Record t : Type := {
  nodes : list MyNode.t;
  edges : list MyEdge.t;
  latestBlock : option LatestBlock.t   (* [latestBlock?] *)
}.
End MyMappedData.

(* ================================================================== *)
(** * The collaborators *)
(* ================================================================== *)

(** The conversions and helpers the mapper imports. They are kept
    abstract: every property below holds whatever they compute.
    [BigInt] raises on a malformed numeric string, [getAddress] on an id
    that is not an address. *)
Class Runtime : Type := {
  Number : jsval -> number;
  BigInt : jsval -> result Z;
  getAddress : string -> result string;
  shortenHex : string -> string;
  fromUnixTime : option jsval -> Date.t
}.

(* ================================================================== *)
(** * The mapper *)
(* ================================================================== *)

Section Mapper.
Context {rt : Runtime}.

(** ** Node builder: candidate extraction *)

(** A [number] is never [null] or [undefined], whatever its value, so the
    left operand of each [??] below is always present. *)
Definition nodeFromAccount (x : Account.t) : PartialNode.t :=
  {| PartialNode.id := Account.id x;
    PartialNode.data := {|
      NodeData.isPool := None;
      NodeData.isSuperApp := Some (Account.isSuperApp x);
      NodeData.isSelected := Some true;
      NodeData.createdAtBlockNumber :=
        coalesce
          (Some (Math_min (map (fun y => Number (AccountTokenSnapshot.createdAtBlockNumber y))
                              (Account.accountTokenSnapshots x))))
          (Number (Account.createdAtBlockNumber x));
      NodeData.createdAtTimestamp :=
        coalesce
          (Some (Math_min (map (fun y => Number (AccountTokenSnapshot.createdAtTimestamp y))
                              (Account.accountTokenSnapshots x))))
          (Number (Account.createdAtTimestamp x));
      NodeData.updatedAtBlockNumber :=
        coalesce
          (Some (Math_max (map (fun y => Number (AccountTokenSnapshot.updatedAtBlockNumber y))
                              (Account.accountTokenSnapshots x))))
          (Number (Account.updatedAtBlockNumber x));
      NodeData.updatedAtTimestamp :=
        coalesce
          (Some (Math_max (map (fun y => Number (AccountTokenSnapshot.updatedAtTimestamp y))
                              (Account.accountTokenSnapshots x))))
          (Number (Account.updatedAtTimestamp x)) |} |}.

Definition nodesFromAccounts (data : Query.t) : list PartialNode.t :=
  map nodeFromAccount (Query.selectedAccounts data).

Definition nodeFromPool (x : Pool.t) : PartialNode.t :=
  {| PartialNode.id := Pool.id x;
    PartialNode.data := {|
      NodeData.isPool := Some true;
      NodeData.isSuperApp := None;
      NodeData.isSelected := Some true;
      NodeData.createdAtBlockNumber := Number (Pool.createdAtBlockNumber x);
      NodeData.createdAtTimestamp := Number (Pool.createdAtTimestamp x);
      NodeData.updatedAtBlockNumber := Number (Pool.updatedAtBlockNumber x);
      NodeData.updatedAtTimestamp := Number (Pool.updatedAtTimestamp x) |} |}.

(** Built by the source, and used by none of the later steps. *)
Definition nodesFromPools (data : Query.t) : list PartialNode.t :=
  flat (map (fun x => [nodeFromPool x]) (Query.selectedPools data)).

(** [data.poolMembers.concat(data.selectedPools.map((x) => x.poolMembers).flat())] *)
Definition allPoolMembers (data : Query.t) : list PoolMember.t :=
  Query.poolMembers data ++ flat (map Pool.poolMembers (Query.selectedPools data)).

(** [data.poolDistributors.concat(data.selectedPools.map((x) => x.poolDistributors).flat())] *)
Definition allPoolDistributors (data : Query.t) : list PoolDistributor.t :=
  Query.poolDistributors data
  ++ flat (map Pool.poolDistributors (Query.selectedPools data)).

Definition nodeFromPoolRef (p : PoolRef.t) : PartialNode.t :=
  {| PartialNode.id := PoolRef.id p;
    PartialNode.data := {|
      NodeData.isPool := Some true;
      NodeData.isSuperApp := None;
      NodeData.isSelected := None;
      NodeData.createdAtBlockNumber := Number (PoolRef.createdAtBlockNumber p);
      NodeData.createdAtTimestamp := Number (PoolRef.createdAtTimestamp p);
      NodeData.updatedAtBlockNumber := Number (PoolRef.updatedAtBlockNumber p);
      NodeData.updatedAtTimestamp := Number (PoolRef.updatedAtTimestamp p) |} |}.

Definition nodeFromMemberAccount (x : PoolMember.t) : PartialNode.t :=
  {| PartialNode.id := AccountRef.id (PoolMember.account x);
    PartialNode.data := {|
      NodeData.isPool := None;
      NodeData.isSuperApp := Some (AccountRef.isSuperApp (PoolMember.account x));
      NodeData.isSelected := None;
      NodeData.createdAtBlockNumber := Number (PoolMember.createdAtBlockNumber x);
      NodeData.createdAtTimestamp := Number (PoolMember.createdAtTimestamp x);
      NodeData.updatedAtBlockNumber := Number (PoolMember.updatedAtBlockNumber x);
      NodeData.updatedAtTimestamp := Number (PoolMember.updatedAtTimestamp x) |} |}.

Definition nodesFromPoolMembers (data : Query.t) : list PartialNode.t :=
  flat (map (fun x => [nodeFromPoolRef (PoolMember.pool x); nodeFromMemberAccount x])
            (allPoolMembers data)).

Definition nodeFromDistributorAccount (x : PoolDistributor.t) : PartialNode.t :=
  {| PartialNode.id := AccountRef.id (PoolDistributor.account x);
    PartialNode.data := {|
      NodeData.isPool := None;
      NodeData.isSuperApp := Some (AccountRef.isSuperApp (PoolDistributor.account x));
      NodeData.isSelected := None;
      NodeData.createdAtBlockNumber := Number (PoolDistributor.createdAtBlockNumber x);
      NodeData.createdAtTimestamp := Number (PoolDistributor.createdAtTimestamp x);
      NodeData.updatedAtBlockNumber := Number (PoolDistributor.updatedAtBlockNumber x);
      NodeData.updatedAtTimestamp := Number (PoolDistributor.updatedAtTimestamp x) |} |}.

Definition nodesFromPoolDistributors (data : Query.t) : list PartialNode.t :=
  flat (map (fun x => [nodeFromPoolRef (PoolDistributor.pool x);
                       nodeFromDistributorAccount x])
            (allPoolDistributors data)).

Definition nodeFromStreamParty (x : Stream.t) (a : AccountRef.t) : PartialNode.t :=
  {| PartialNode.id := AccountRef.id a;
    PartialNode.data := {|
      NodeData.isPool := None;
      NodeData.isSuperApp := Some (AccountRef.isSuperApp a);
      NodeData.isSelected := None;
      NodeData.createdAtBlockNumber := Number (Stream.createdAtBlockNumber x);
      NodeData.createdAtTimestamp := Number (Stream.createdAtTimestamp x);
      NodeData.updatedAtBlockNumber := Number (Stream.updatedAtBlockNumber x);
      NodeData.updatedAtTimestamp := Number (Stream.updatedAtTimestamp x) |} |}.

Definition nodesFromStreams (data : Query.t) : list PartialNode.t :=
  flat (map (fun x => [nodeFromStreamParty x (Stream.receiver x);
                       nodeFromStreamParty x (Stream.sender x)])
            (Query.streams data)).

Definition nodesButRedundant (data : Query.t) : list PartialNode.t :=
  nodesFromAccounts data
  ++ nodesFromPoolMembers data
  ++ nodesFromPoolDistributors data
  ++ nodesFromStreams data.

(** ** Node builder: deduplication and merge *)

(** The callback of the [map] over the groups. [root] is the group's first
    element; reading [root.data] on an empty group would raise. *)
Definition mergeNodes (nodeFromDifferentSources : list PartialNode.t)
  : result PartialNode.t :=
  match nodeFromDifferentSources with
  | [] => Throw TypeError
  | [root] => Ok root
  | root :: _ =>
      let datas := map PartialNode.data nodeFromDifferentSources in
      Ok {| PartialNode.id := PartialNode.id root;
            PartialNode.data := {|
              NodeData.isPool :=
                Some (existsb (fun d => truthy (NodeData.isPool d)) datas);
              NodeData.isSuperApp :=
                Some (existsb (fun d => truthy (NodeData.isSuperApp d)) datas);
              NodeData.isSelected :=
                Some (fold_left (fun acc curr => acc || truthy (NodeData.isSelected curr))
                                datas false);
              NodeData.createdAtBlockNumber :=
                Math_min (map NodeData.createdAtBlockNumber datas);
              NodeData.createdAtTimestamp :=
                Math_min (map NodeData.createdAtTimestamp datas);
              NodeData.updatedAtBlockNumber :=
                Math_max (map NodeData.updatedAtBlockNumber datas);
              NodeData.updatedAtTimestamp :=
                Math_max (map NodeData.updatedAtTimestamp datas) |} |}
  end.

Definition uniqMergedNodes (data : Query.t) : result (list PartialNode.t) :=
  mapM (fun entry => mergeNodes (snd entry))
       (Object_entries (groupBy (nodesButRedundant data) PartialNode.id)).

(** ** Node builder: finalization *)

Definition fullNode (chain : number) (node : PartialNode.t) : result MyNode.t :=
  address <- getAddress (PartialNode.id node) ;;
  let d := PartialNode.data node in
  Ok {| MyNode.id := PartialNode.id node;
        MyNode.data := {|
          MyNodeData.isPool := NodeData.isPool d;
          MyNodeData.isSuperApp := NodeData.isSuperApp d;
          MyNodeData.isSelected := NodeData.isSelected d;
          MyNodeData.createdAtBlockNumber := NodeData.createdAtBlockNumber d;
          MyNodeData.createdAtTimestamp := NodeData.createdAtTimestamp d;
          MyNodeData.updatedAtBlockNumber := NodeData.updatedAtBlockNumber d;
          MyNodeData.updatedAtTimestamp := NodeData.updatedAtTimestamp d;
          MyNodeData.chain := chain;
          MyNodeData.address := address;
          MyNodeData.label := shortenHex address |};
        MyNode.type := "custom";
        MyNode.position := {| Position.x := 0; Position.y := 0 |} |}.

Definition mapNodes (chain : number) (data : Query.t) : result (list MyNode.t) :=
  merged <- uniqMergedNodes data ;;
  mapM (fullNode chain) merged.

(** ** Edge builder: candidate extraction *)

(** The three pieces of a template literal [`${a}-${b}-${c}`]. *)
Definition edgeId (a b c : string) : string :=
  (a ++ "-" ++ b ++ "-" ++ c)%string.

Definition edgeToken (t : Token.t) : EdgeToken.t :=
  {| EdgeToken.id := Token.id t; EdgeToken.symbol := Token.symbol t |}.

Definition edgeFromPoolDistributor (x : PoolDistributor.t) : result PartialEdge.t :=
  let pool := PoolDistributor.pool x in
  let account := PoolDistributor.account x in
  flowRate <- BigInt (PoolDistributor.flowRate x) ;;
  Ok {| PartialEdge.id :=
          edgeId (Token.id (PoolRef.token pool)) (AccountRef.id account) (PoolRef.id pool);
        PartialEdge.source := AccountRef.id account;
        PartialEdge.target := PoolRef.id pool;
        PartialEdge.data := {|
          EdgeData.token := edgeToken (PoolRef.token pool);
          EdgeData.flowRate := flowRate |} |}.

(** [BigInt(x.units) > 0 ? (BigInt(x.pool.flowRate) * BigInt(x.pool.totalUnits))
    / BigInt(x.units) : 0n]: the operands of the quotient are converted
    only in the first branch. *)
Definition memberFlowRate (x : PoolMember.t) : result Z :=
  let pool := PoolMember.pool x in
  units <- BigInt (PoolMember.units x) ;;
  if units >? 0 then
    flowRate <- BigInt (PoolRef.flowRate pool) ;;
    totalUnits <- BigInt (PoolRef.totalUnits pool) ;;
    units' <- BigInt (PoolMember.units x) ;;
    bigint_div (flowRate * totalUnits) units'
  else Ok 0.

Definition edgeFromPoolMember (x : PoolMember.t) : result PartialEdge.t :=
  let pool := PoolMember.pool x in
  let account := PoolMember.account x in
  flowRate <- memberFlowRate x ;;
  Ok {| PartialEdge.id :=
          edgeId (Token.id (PoolRef.token pool)) (PoolRef.id pool) (AccountRef.id account);
        PartialEdge.source := PoolRef.id pool;
        PartialEdge.target := AccountRef.id account;
        PartialEdge.data := {|
          EdgeData.token := edgeToken (PoolRef.token pool);
          EdgeData.flowRate := flowRate |} |}.

Definition edgeFromStream (x : Stream.t) : result PartialEdge.t :=
  let sender := Stream.sender x in
  let receiver := Stream.receiver x in
  flowRate <- BigInt (Stream.currentFlowRate x) ;;
  Ok {| PartialEdge.id :=
          edgeId (Token.id (Stream.token x)) (AccountRef.id sender) (AccountRef.id receiver);
        PartialEdge.source := AccountRef.id sender;
        PartialEdge.target := AccountRef.id receiver;
        PartialEdge.data := {|
          EdgeData.token := edgeToken (Stream.token x);
          EdgeData.flowRate := flowRate |} |}.

Definition edgesFromPoolDistributors (data : Query.t) : result (list PartialEdge.t) :=
  mapM edgeFromPoolDistributor (allPoolDistributors data).

Definition edgesFromPoolMembers (data : Query.t) : result (list PartialEdge.t) :=
  mapM edgeFromPoolMember (allPoolMembers data).

Definition edgesFromStreams (data : Query.t) : result (list PartialEdge.t) :=
  mapM edgeFromStream (Query.streams data).

(** The three lists are built in the order distributors, members, streams
    and spread in the order members, streams, distributors. *)
Definition edgesButRedundant (data : Query.t) : result (list PartialEdge.t) :=
  fromPoolDistributors <- edgesFromPoolDistributors data ;;
  fromPoolMembers <- edgesFromPoolMembers data ;;
  fromStreams <- edgesFromStreams data ;;
  Ok (fromPoolMembers ++ fromStreams ++ fromPoolDistributors).

(** ** Edge builder: deduplication *)

(** [BigInt(x.data?.flowRate ?? 0)] is [x.data.flowRate] itself: the field
    is always present and already a bigint. *)
Definition mergeEdges (edgesFromDifferentSources : list PartialEdge.t)
  : result PartialEdge.t :=
  match edgesFromDifferentSources with
  | [] => Throw TypeError
  | [root] => Ok root
  | root :: _ =>
      Ok {| PartialEdge.id := PartialEdge.id root;
            PartialEdge.source := PartialEdge.source root;
            PartialEdge.target := PartialEdge.target root;
            PartialEdge.data := {|
              EdgeData.token := EdgeData.token (PartialEdge.data root);
              EdgeData.flowRate :=
                fold_left (fun acc x => acc + EdgeData.flowRate (PartialEdge.data x))
                          edgesFromDifferentSources 0 |} |}
  end.

Definition uniqEdges (redundant : list PartialEdge.t) : result (list PartialEdge.t) :=
  mapM (fun entry => mergeEdges (snd entry))
       (Object_entries (groupBy redundant PartialEdge.id)).

(** ** Edge builder: parallel-edge metadata *)

(** [[x.source, x.target].sort().join("-")] *)
Definition pairKey (x : PartialEdge.t) : string :=
  join "-" (sort2 (PartialEdge.source x) (PartialEdge.target x)).

Definition EdgeToken_eqb (a b : EdgeToken.t) : bool :=
  String.eqb (EdgeToken.id a) (EdgeToken.id b)
  && String.eqb (EdgeToken.symbol a) (EdgeToken.symbol b).

(** [indexOf] compares with [===], that is by reference. The elements of
    [uniqEdges] are distinct objects and carry pairwise distinct ids
    ([uniqEdges_ids_NoDup] below), so comparing by content picks the same
    element. *)
Definition PartialEdge_eqb (a b : PartialEdge.t) : bool :=
  String.eqb (PartialEdge.id a) (PartialEdge.id b)
  && String.eqb (PartialEdge.source a) (PartialEdge.source b)
  && String.eqb (PartialEdge.target a) (PartialEdge.target b)
  && EdgeToken_eqb (EdgeData.token (PartialEdge.data a))
                   (EdgeData.token (PartialEdge.data b))
  && (EdgeData.flowRate (PartialEdge.data a) =? EdgeData.flowRate (PartialEdge.data b)).

(** Reading [.length] of a missing property would raise. The key holds a
    ["-"], so no inherited property can answer for a missing own one. *)
Definition fullEdge (edgesBetweenSameNodes : object (list PartialEdge.t))
           (x : PartialEdge.t) : result MyEdge.t :=
  let key := pairKey x in
  match get edgesBetweenSameNodes key with
  | None => Throw TypeError
  | Some group =>
      Ok {| MyEdge.id := PartialEdge.id x;
            MyEdge.source := PartialEdge.source x;
            MyEdge.target := PartialEdge.target x;
            MyEdge.animated := true;
            MyEdge.type := "floating";
            MyEdge.data := {|
              MyEdgeData.token := EdgeData.token (PartialEdge.data x);
              MyEdgeData.flowRate := EdgeData.flowRate (PartialEdge.data x);
              MyEdgeData.something := {|
                Something.length := length_of group;
                Something.index := indexOf PartialEdge_eqb x group |} |} |}
  end.

Definition edgesWithFullData (uniq : list PartialEdge.t) : result (list MyEdge.t) :=
  let edgesBetweenSameNodes := groupBy uniq pairKey in
  mapM (fullEdge edgesBetweenSameNodes) uniq.

Definition mapEdges (data : Query.t) : result (list MyEdge.t) :=
  redundant <- edgesButRedundant data ;;
  uniq <- uniqEdges redundant ;;
  edgesWithFullData uniq.

(** ** The entry point *)

(** The object literal evaluates its fields in order: nodes, edges, then
    [latestBlock], whose first step reads [data._meta!.block]; the [!] is
    erased at compile time, so the read raises when [_meta] is absent. *)
Definition dataMapper (chain : number) (data : Query.t) : result MyMappedData.t :=
  nodes <- mapNodes chain data ;;
  edges <- mapEdges data ;;
  match Query._meta data with
  | None => Throw TypeError
  | Some meta =>
      let block := Meta.block meta in
      Ok {| MyMappedData.nodes := nodes;
            MyMappedData.edges := edges;
            MyMappedData.latestBlock := Some {|
              LatestBlock.number := Number (Block.number block);
              LatestBlock.timestamp := fromUnixTime (Block.timestamp block) |} |}
  end.

End Mapper.

(* ================================================================== *)
(** * Vocabulary of the properties *)
(* ================================================================== *)

(** The ids of a snapshot that take part in a relation the node builder
    reads: selected accounts, both ends of every membership and
    distributorship (flat or embedded in a selected pool), both ends of
    every stream. The id of a selected pool itself is not among them. *)
Definition relatedIds (data : Query.t) : list string :=
  map Account.id (Query.selectedAccounts data)
  ++ flat (map (fun x => [PoolRef.id (PoolMember.pool x);
                          AccountRef.id (PoolMember.account x)])
               (Query.poolMembers data
                ++ flat (map Pool.poolMembers (Query.selectedPools data))))
  ++ flat (map (fun x => [PoolRef.id (PoolDistributor.pool x);
                          AccountRef.id (PoolDistributor.account x)])
               (Query.poolDistributors data
                ++ flat (map Pool.poolDistributors (Query.selectedPools data))))
  ++ flat (map (fun x => [AccountRef.id (Stream.receiver x);
                          AccountRef.id (Stream.sender x)])
               (Query.streams data)).

(** The ids that are the pool of some membership or distributorship. *)
Definition relationPoolIds (data : Query.t) : list string :=
  map (fun x => PoolRef.id (PoolMember.pool x))
      (Query.poolMembers data
       ++ flat (map Pool.poolMembers (Query.selectedPools data)))
  ++ map (fun x => PoolRef.id (PoolDistributor.pool x))
         (Query.poolDistributors data
          ++ flat (map Pool.poolDistributors (Query.selectedPools data))).

(** Exact sum of a list of bigints. *)
Definition sumZ (l : list Z) : Z := fold_right Z.add 0 l.

(** The elements of [l] whose key is [k], in the order of [l]. *)
Definition keyed {A : Type} (f : A -> string) (k : string) (l : list A) : list A :=
  filter (fun x => String.eqb (f x) k) l.

(** The raw candidates that carry a given composite id. *)
Definition sharingId (id : string) (l : list PartialEdge.t) : list PartialEdge.t :=
  keyed PartialEdge.id id l.

(** Two edges join the same unordered pair of endpoints. *)
Definition samePairb (a b : MyEdge.t) : bool :=
  String.eqb (MyEdge.source a) (MyEdge.source b)
  && String.eqb (MyEdge.target a) (MyEdge.target b)
  || String.eqb (MyEdge.source a) (MyEdge.target b)
     && String.eqb (MyEdge.target a) (MyEdge.source b).

(** A string without the separator ["-"] of the pair key; every address
    is one. *)
Fixpoint dashFree (s : string) : bool :=
  match s with
  | EmptyString => true
  | String c s' => negb (Ascii.eqb c "-") && dashFree s'
  end.

Definition edgeLength (e : MyEdge.t) : Z :=
  Something.length (MyEdgeData.something (MyEdge.data e)).

Definition edgeIndex (e : MyEdge.t) : Z :=
  Something.index (MyEdgeData.something (MyEdge.data e)).

(** What the scenarios read off an output edge: id, source, target, flow
    rate, then the [length] and [index] of its parallel-edge metadata. *)
Definition edgeSummary (e : MyEdge.t) : string * string * string * Z * Z * Z :=
  (MyEdge.id e, MyEdge.source e, MyEdge.target e,
   MyEdgeData.flowRate (MyEdge.data e), edgeLength e, edgeIndex e).

(** [a <= b] on numbers; a comparison with [NaN] is false. *)
Definition num_leb (a b : number) : bool :=
  match a, b with
  | NaN, _ | _, NaN => false
  | NegInf, _ => true
  | _, PosInf => true
  | Fin x, Fin y => x <=? y
  | _, _ => false
  end.

(** None of the four block and timestamp fields is [NaN]. *)
Definition stampsComparable (d : NodeData.t) : Prop :=
  NodeData.createdAtBlockNumber d <> NaN
  /\ NodeData.createdAtTimestamp d <> NaN
  /\ NodeData.updatedAtBlockNumber d <> NaN
  /\ NodeData.updatedAtTimestamp d <> NaN.

(** [BigInt(v)] returns. *)
Definition convertible {rt : Runtime} (v : jsval) : Prop :=
  exists z, BigInt v = Ok z.

(** The conversions the flow rate of a membership needs: the units always,
    the pool's flow rate and total units only when the units are
    positive. *)
Definition memberConvertible {rt : Runtime} (x : PoolMember.t) : Prop :=
  exists units,
    BigInt (PoolMember.units x) = Ok units
    /\ (0 < units ->
        convertible (PoolRef.flowRate (PoolMember.pool x))
        /\ convertible (PoolRef.totalUnits (PoolMember.pool x))).

(** The distinct keys of a list in the order in which each is first met;
    [seen] holds the keys met so far. *)
Fixpoint firstOccurrences (seen l : list string) : list string :=
  match l with
  | [] => []
  | k :: l' =>
      if existsb (String.eqb k) seen then firstOccurrences seen l'
      else k :: firstOccurrences (k :: seen) l'
  end.

(* ================================================================== *)
(** * A concrete runtime and sample snapshots *)
(* ================================================================== *)

Module Sample.

(** Decimal literals only, which is all the sample snapshots contain; on
    those the two conversions agree with the built-in ones. *)
Definition decimal (s : string) : option Z :=
  match NilEmpty.int_of_string s with
  | Some i => Some (Z.of_int i)
  | None => None
  end.

Definition Number (v : jsval) : number :=
  match v with
  | VNum n => n
  | VStr s => match decimal s with Some z => Fin z | None => NaN end
  end.

Definition BigInt (v : jsval) : result Z :=
  match v with
  | VNum (Fin z) => Ok z
  | VNum _ => Throw RangeError
  | VStr s => match decimal s with Some z => Ok z | None => Throw SyntaxError end
  end.

Definition isHexDigit (c : ascii) : bool :=
  let n := nat_of_ascii c in
  ((48 <=? n) && (n <=? 57) || (65 <=? n) && (n <=? 70)
   || (97 <=? n) && (n <=? 102))%nat.

Definition isAddress (s : string) : bool :=
  match s with
  | String c0 (String c1 hex) =>
      Ascii.eqb c0 "0" && Ascii.eqb c1 "x"
      && (String.length hex =? 40)%nat
      && forallb isHexDigit (list_ascii_of_string hex)
  | _ => false
  end.

(** Accepts what [getAddress] accepts; the checksum casing is left out. *)
Definition getAddress (s : string) : result string :=
  if isAddress s then Ok s else Throw InvalidAddressError.

Definition shortenHex (s : string) : string :=
  (substring 0 6 s ++ "..." ++ substring (String.length s - 4) 4 s)%string.

Definition fromUnixTime (v : option jsval) : Date.t :=
  {| Date.getTime :=
       match v with
       | Some (VNum (Fin z)) => Fin (z * 1000)
       | _ => NaN
       end |}.

Definition runtime : Runtime :=
  Build_Runtime Number BigInt getAddress shortenHex fromUnixTime.

Definition alice : string := "0xaaaaaaaaaaaaaaaaaaaaaaaaaaaaaaaaaaaaaaaa".
Definition bob : string := "0xbbbbbbbbbbbbbbbbbbbbbbbbbbbbbbbbbbbbbbbb".
Definition poolC : string := "0xcccccccccccccccccccccccccccccccccccccccc".
Definition tokenD : string := "0xdddddddddddddddddddddddddddddddddddddddd".

Definition token : Token.t := {| Token.id := tokenD; Token.symbol := "ETHx" |}.

Definition account (id : string) : AccountRef.t :=
  {| AccountRef.id := id; AccountRef.isSuperApp := false |}.

Definition pool (id : string) (flowRate totalUnits : string) : PoolRef.t :=
  {| PoolRef.id := id;
     PoolRef.token := token;
     PoolRef.flowRate := VStr flowRate;
     PoolRef.totalUnits := VStr totalUnits;
     PoolRef.createdAtBlockNumber := VStr "10";
     PoolRef.createdAtTimestamp := VStr "1000";
     PoolRef.updatedAtBlockNumber := VStr "20";
     PoolRef.updatedAtTimestamp := VStr "2000" |}.

Definition member (acc : string) (p : PoolRef.t) (units : string) : PoolMember.t :=
  {| PoolMember.account := account acc;
     PoolMember.pool := p;
     PoolMember.units := VStr units;
     PoolMember.createdAtBlockNumber := VStr "12";
     PoolMember.createdAtTimestamp := VStr "1200";
     PoolMember.updatedAtBlockNumber := VStr "18";
     PoolMember.updatedAtTimestamp := VStr "1800" |}.

Definition distributor (acc : string) (p : PoolRef.t) (flowRate : string)
  : PoolDistributor.t :=
  {| PoolDistributor.account := account acc;
     PoolDistributor.pool := p;
     PoolDistributor.flowRate := VStr flowRate;
     PoolDistributor.createdAtBlockNumber := VStr "11";
     PoolDistributor.createdAtTimestamp := VStr "1100";
     PoolDistributor.updatedAtBlockNumber := VStr "19";
     PoolDistributor.updatedAtTimestamp := VStr "1900" |}.

Definition stream (sender receiver : string) (rate : string) : Stream.t :=
  {| Stream.sender := account sender;
     Stream.receiver := account receiver;
     Stream.token := token;
     Stream.currentFlowRate := VStr rate;
     Stream.createdAtBlockNumber := VStr "30";
     Stream.createdAtTimestamp := VStr "3000";
     Stream.updatedAtBlockNumber := VStr "40";
     Stream.updatedAtTimestamp := VStr "4000" |}.

Definition selectedAccount (id : string) (snapshots : list AccountTokenSnapshot.t)
  : Account.t :=
  {| Account.id := id;
     Account.isSuperApp := false;
     Account.createdAtBlockNumber := VStr "100";
     Account.createdAtTimestamp := VStr "1700000000";
     Account.updatedAtBlockNumber := VStr "200";
     Account.updatedAtTimestamp := VStr "1700009999";
     Account.accountTokenSnapshots := snapshots |}.

Definition selectedPool (id : string) (members : list PoolMember.t)
           (distributors : list PoolDistributor.t) : Pool.t :=
  {| Pool.id := id;
     Pool.createdAtBlockNumber := VStr "10";
     Pool.createdAtTimestamp := VStr "1000";
     Pool.updatedAtBlockNumber := VStr "20";
     Pool.updatedAtTimestamp := VStr "2000";
     Pool.poolMembers := members;
     Pool.poolDistributors := distributors |}.

Definition head : option Meta.t :=
  Some {| Meta.block := {| Block.number := VNum (Fin 500);
                           Block.timestamp := Some (VNum (Fin 1700010000)) |} |}.

Definition snapshot (accounts : list Account.t) (pools : list Pool.t)
           (members : list PoolMember.t) (distributors : list PoolDistributor.t)
           (streams : list Stream.t) (meta : option Meta.t) : Query.t :=
  {| Query.selectedAccounts := accounts;
     Query.selectedPools := pools;
     Query.poolMembers := members;
     Query.poolDistributors := distributors;
     Query.streams := streams;
     Query._meta := meta |}.

(** The pool of the proportional-share scenario: flow rate 1000, 200 units
    in total, and a member holding 50 of them. *)
Definition pool1000 : PoolRef.t := pool poolC "1000" "200".
Definition member50 : PoolMember.t := member alice pool1000 "50".
Definition member0 : PoolMember.t := member bob pool1000 "0".

(** A member without units in a pool whose own figures do not parse. *)
Definition brokenPool : PoolRef.t := pool poolC "n/a" "1e3".
Definition idleMember : PoolMember.t := member bob brokenPool "0".

(** The membership once in the flat list and once inside a selected pool. *)
Definition membershipSnapshot : Query.t :=
  snapshot [] [selectedPool poolC [member50] []] [member50] [] [] head.

(** One stream in each direction between the same two accounts. *)
Definition twoWaySnapshot : Query.t :=
  snapshot [] [] [] [] [stream alice bob "100"; stream bob alice "30"] head.

(** A selected account without any per-token snapshot. *)
Definition bareAccountSnapshot : Query.t :=
  snapshot [selectedAccount alice []] [] [] [] [] head.

(** A selected pool with neither members nor distributors. *)
Definition barePoolSnapshot : Query.t :=
  snapshot [] [selectedPool poolC [] []] [] [] [] head.

(** No head-block metadata. *)
Definition headlessSnapshot : Query.t :=
  snapshot [] [] [] [] [stream alice bob "100"] None.

(** An account selected and also receiving a stream, next to a pool with a
    member and a distributor. *)
Definition mixedSnapshot : Query.t :=
  snapshot [selectedAccount bob []]
           [selectedPool poolC [member50] [distributor bob pool1000 "7"]]
           [member0] [distributor bob pool1000 "5"]
           [stream alice bob "100"; stream alice bob "1"] head.

Definition balance (createdBlock createdAt updatedBlock updatedAt : string)
  : AccountTokenSnapshot.t :=
  {| AccountTokenSnapshot.createdAtBlockNumber := VStr createdBlock;
     AccountTokenSnapshot.createdAtTimestamp := VStr createdAt;
     AccountTokenSnapshot.updatedAtBlockNumber := VStr updatedBlock;
     AccountTokenSnapshot.updatedAtTimestamp := VStr updatedAt |}.

(** A selected account with two per-token snapshots. *)
Definition trackedAccount : Account.t :=
  selectedAccount alice [balance "150" "1500" "160" "1600";
                         balance "120" "1200" "190" "1900"].

(** A member whose units are negative. *)
Definition indebtedMember : PoolMember.t := member bob brokenPool "-5".

(** A pool draining at rate 7 over 2 units of which the member holds 3. *)
Definition drainingPool : PoolRef.t := pool poolC "-7" "2".
Definition drainingMember : PoolMember.t := member alice drainingPool "3".

End Sample.

(* ================================================================== *)
(** * Facts about the runtime *)
(* ================================================================== *)

Section RuntimeFacts.

Context {A B : Type}.

Lemma mapM_Forall2 (f : A -> result B) (l : list A) (l' : list B) :
  mapM f l = Ok l' -> Forall2 (fun x y => f x = Ok y) l l'.
Proof.
  revert l'. induction l as [|x l IH]; intros l' H; simpl in H.
  - injection H as <-. constructor.
  - destruct (f x) as [y|e] eqn:Hx; simpl in H; [|discriminate].
    destruct (mapM f l) as [ys|e] eqn:Hl; simpl in H; [|discriminate].
    injection H as <-. constructor; auto.
Qed.

Lemma mapM_total (f : A -> result B) (l : list A) :
  (forall x, In x l -> exists y, f x = Ok y) ->
  exists l', mapM f l = Ok l'.
Proof.
  induction l as [|x l IH]; intros H; simpl.
  - eauto.
  - destruct (H x (or_introl eq_refl)) as [y ->]. simpl.
    destruct IH as [ys ->]; [intros; apply H; now right|].
    simpl. eauto.
Qed.

Lemma Forall2_In_l (P : A -> B -> Prop) l l' x :
  Forall2 P l l' -> In x l -> exists y, In y l' /\ P x y.
Proof.
  induction 1 as [|a b l l' Hab _ IH]; intros Hin; [contradiction|].
  destruct Hin as [->|Hin]; [exists b; simpl; auto|].
  destruct (IH Hin) as [y [? ?]]. exists y; simpl; auto.
Qed.

Lemma Forall2_In_r (P : A -> B -> Prop) l l' y :
  Forall2 P l l' -> In y l' -> exists x, In x l /\ P x y.
Proof.
  induction 1 as [|a b l l' Hab _ IH]; intros Hin; [contradiction|].
  destruct Hin as [->|Hin]; [exists a; simpl; auto|].
  destruct (IH Hin) as [x [? ?]]. exists x; simpl; auto.
Qed.

Lemma Forall2_impl_In (P Q : A -> B -> Prop) l l' :
  (forall x y, In x l -> P x y -> Q x y) -> Forall2 P l l' -> Forall2 Q l l'.
Proof.
  intros H H2. induction H2 as [|a b l l' Hab _ IH]; constructor.
  - apply H; [now left|assumption].
  - apply IH. intros; apply H; [now right|assumption].
Qed.

Lemma Forall2_filter_length (P : A -> B -> Prop) (p : A -> bool) (q : B -> bool)
      l l' :
  Forall2 P l l' ->
  (forall x y, In x l -> In y l' -> P x y -> p x = q y) ->
  List.length (filter p l) = List.length (filter q l').
Proof.
  induction 1 as [|a b l l' Hab _ IH]; intros H; [reflexivity|].
  simpl. rewrite <- (H a b); simpl; auto.
  destruct (p a); simpl; rewrite IH; auto; intros; apply H; simpl; auto.
Qed.

Lemma Forall2_map_eq {C : Type} (g : A -> C) (h : B -> C) l l' :
  Forall2 (fun x y => g x = h y) l l' -> map g l = map h l'.
Proof.
  induction 1; simpl; congruence.
Qed.

End RuntimeFacts.

(** ** [groupBy] *)

Section GroupByFacts.

Context {A : Type}.

Lemma get_pushGroup (k k' : string) (x : A) (o : object (list A)) :
  get (pushGroup k x o) k' =
  if String.eqb k' k
  then Some (match get o k with Some g => g ++ [x] | None => [x] end)
  else get o k'.
Proof.
  induction o as [|[k0 g0] o IH]; simpl.
  - destruct (String.eqb_spec k' k); reflexivity.
  - destruct (String.eqb_spec k k0) as [->|Hk]; simpl.
    + destruct (String.eqb_spec k' k0); reflexivity.
    + rewrite IH.
      destruct (String.eqb_spec k' k0) as [->|Hk'].
      * destruct (String.eqb_spec k0 k); [congruence|reflexivity].
      * reflexivity.
Qed.

Lemma keys_pushGroup (k : string) (x : A) (o : object (list A)) :
  map fst (pushGroup k x o) =
  if in_dec string_dec k (map fst o) then map fst o else map fst o ++ [k].
Proof.
  induction o as [|[k0 g0] o IH]; simpl; [reflexivity|].
  destruct (String.eqb_spec k k0) as [->|Hk]; simpl.
  - destruct (string_dec k0 k0); [reflexivity|congruence].
  - rewrite IH. destruct (string_dec k0 k); [congruence|].
    destruct (in_dec string_dec k (map fst o)); reflexivity.
Qed.

Lemma NoDup_keys_pushGroup (k : string) (x : A) (o : object (list A)) :
  NoDup (map fst o) -> NoDup (map fst (pushGroup k x o)).
Proof.
  intros H. rewrite keys_pushGroup.
  destruct (in_dec string_dec k (map fst o)) as [|Hn]; [assumption|].
  apply NoDup_rev in H. rewrite <- (rev_involutive (map fst o ++ [k])).
  apply NoDup_rev. rewrite rev_app_distr. simpl. constructor; [|assumption].
  now rewrite <- in_rev.
Qed.

Lemma get_In (V : Type) (o : object V) (k : string) (v : V) :
  get o k = Some v -> In (k, v) o.
Proof.
  induction o as [|[k0 v0] o IH]; simpl; [discriminate|].
  destruct (String.eqb_spec k k0) as [->|Hk].
  - intros [= ->]. now left.
  - intros H. right. auto.
Qed.

Lemma In_get (V : Type) (o : object V) (k : string) (v : V) :
  NoDup (map fst o) -> In (k, v) o -> get o k = Some v.
Proof.
  induction o as [|[k0 v0] o IH]; simpl; [contradiction|].
  intros Hnd [Heq|Hin].
  - injection Heq as -> ->. now rewrite String.eqb_refl.
  - inversion Hnd as [|? ? Hnotin Hnd']; subst.
    destruct (String.eqb_spec k k0) as [->|Hk].
    + exfalso. apply Hnotin. change k0 with (fst (k0, v)). now apply in_map.
    + auto.
Qed.

Variable f : A -> string.

Lemma get_fold_pushGroup (l : list A) (o : object (list A)) (k : string) :
  get (fold_left (fun o x => pushGroup (f x) x o) l o) k =
  match get o k, keyed f k l with
  | Some g, fl => Some (g ++ fl)
  | None, [] => None
  | None, fl => Some fl
  end.
Proof.
  revert o. induction l as [|x l IH]; intros o; simpl.
  - destruct (get o k); [now rewrite app_nil_r|reflexivity].
  - rewrite IH, get_pushGroup. unfold keyed. simpl.
    destruct (String.eqb_spec k (f x)) as [->|Hk].
    + rewrite String.eqb_refl.
      destruct (get o (f x)) as [g|]; [now rewrite <- app_assoc|reflexivity].
    + destruct (String.eqb_spec (f x) k); [congruence|].
      reflexivity.
Qed.

Lemma NoDup_keys_fold (l : list A) (o : object (list A)) :
  NoDup (map fst o) ->
  NoDup (map fst (fold_left (fun o x => pushGroup (f x) x o) l o)).
Proof.
  revert o. induction l as [|x l IH]; intros o H; simpl; [assumption|].
  apply IH. now apply NoDup_keys_pushGroup.
Qed.

(** What is stored under a key: the elements with that key, in order, and
    nothing when there is none. *)
Lemma get_groupBy (l : list A) (k : string) :
  get (groupBy l f) k =
  match keyed f k l with
  | [] => None
  | g => Some g
  end.
Proof.
  unfold groupBy. now rewrite get_fold_pushGroup.
Qed.

Lemma NoDup_keys_groupBy (l : list A) : NoDup (map fst (groupBy l f)).
Proof.
  unfold groupBy. apply NoDup_keys_fold. constructor.
Qed.

Lemma In_groupBy (l : list A) (k : string) (g : list A) :
  In (k, g) (groupBy l f) <-> g = keyed f k l /\ g <> [].
Proof.
  split.
  - intros H. apply In_get in H; [|apply NoDup_keys_groupBy].
    rewrite get_groupBy in H.
    destruct (keyed f k l) eqn:E; [discriminate|].
    injection H as <-. split; [reflexivity|discriminate].
  - intros [-> Hne]. apply get_In. rewrite get_groupBy.
    destruct (keyed f k l); [congruence|reflexivity].
Qed.

Lemma In_keyed (k : string) (l : list A) (x : A) :
  In x (keyed f k l) <-> In x l /\ f x = k.
Proof.
  unfold keyed. rewrite filter_In, String.eqb_eq. reflexivity.
Qed.

Lemma get_groupBy_In (l : list A) (x : A) :
  In x l -> get (groupBy l f) (f x) = Some (keyed f (f x) l).
Proof.
  intros H. rewrite get_groupBy.
  destruct (keyed f (f x) l) eqn:E; [|reflexivity].
  assert (Hx : In x (keyed f (f x) l)) by (apply In_keyed; auto).
  rewrite E in Hx. contradiction.
Qed.

Lemma keys_groupBy (l : list A) (k : string) :
  In k (map fst (groupBy l f)) <-> In k (map f l).
Proof.
  rewrite !in_map_iff. split.
  - intros [[k' g] [Hk Hin]]. simpl in Hk. subst k'.
    apply In_groupBy in Hin. destruct Hin as [-> Hne].
    destruct (keyed f k l) as [|x g'] eqn:E; [congruence|].
    assert (Hx : In x (keyed f k l)) by (rewrite E; now left).
    apply In_keyed in Hx. exists x. tauto.
  - intros [x [Hk Hin]]. subst k.
    exists (f x, keyed f (f x) l). split; [reflexivity|].
    apply get_In. now apply get_groupBy_In.
Qed.

End GroupByFacts.

(** ** [Object.entries] *)

Section EntriesFacts.

Context {V : Type}.

Lemma insertByIndex_perm (e : string * V) (l : list (string * V)) :
  Permutation (insertByIndex e l) (e :: l).
Proof.
  induction l as [|e' l IH]; simpl; [reflexivity|].
  destruct (indexKey e <=? indexKey e')%N; [reflexivity|].
  rewrite IH. apply perm_swap.
Qed.

Lemma sortByIndex_perm (l : list (string * V)) : Permutation (sortByIndex l) l.
Proof.
  induction l as [|e l IH]; simpl; [reflexivity|].
  rewrite insertByIndex_perm. now constructor.
Qed.

Lemma filter_split_perm (p : string * V -> bool) (l : list (string * V)) :
  Permutation (filter p l ++ filter (fun e => negb (p e)) l) l.
Proof.
  induction l as [|e l IH]; simpl; [reflexivity|].
  destruct (p e); simpl.
  - now constructor.
  - rewrite <- Permutation_middle. now constructor.
Qed.

(** [Object.entries] lists every own property exactly once. *)
Lemma Object_entries_perm (o : object V) : Permutation (Object_entries o) o.
Proof.
  unfold Object_entries. rewrite sortByIndex_perm. apply filter_split_perm.
Qed.

Lemma In_Object_entries (o : object V) (e : string * V) :
  In e (Object_entries o) <-> In e o.
Proof.
  split; apply Permutation_in;
    [apply Object_entries_perm | symmetry; apply Object_entries_perm].
Qed.

Lemma NoDup_keys_Object_entries (o : object V) :
  NoDup (map fst o) -> NoDup (map fst (Object_entries o)).
Proof.
  intros H. eapply Permutation_NoDup; [|exact H].
  apply Permutation_map. symmetry. apply Object_entries_perm.
Qed.

End EntriesFacts.

(** ** Deduplication, for nodes and edges alike *)

Section DedupFacts.

Context {A : Type}.
Variable key : A -> string.
Variable merge : list A -> result A.

Local Abbreviation dedup l :=
  (mapM (fun entry => merge (snd entry)) (Object_entries (groupBy l key))).

Lemma dedup_entry (l : list A) (entry : string * list A) :
  In entry (Object_entries (groupBy l key)) ->
  snd entry = keyed key (fst entry) l /\ snd entry <> [].
Proof.
  destruct entry as [k g]. rewrite In_Object_entries, In_groupBy. auto.
Qed.

Hypothesis merge_ok : forall g, g <> [] -> exists n, merge g = Ok n.

Lemma dedup_total (l : list A) : exists out, dedup l = Ok out.
Proof.
  apply mapM_total. intros entry Hin.
  apply merge_ok. now apply dedup_entry in Hin.
Qed.

Hypothesis merge_key :
  forall g n, merge g = Ok n -> exists root, In root g /\ key n = key root.

Lemma dedup_keys (l : list A) (out : list A) :
  dedup l = Ok out ->
  map key out = map fst (Object_entries (groupBy l key)).
Proof.
  intros H. apply mapM_Forall2 in H. symmetry.
  apply Forall2_map_eq.
  eapply Forall2_impl_In; [|exact H].
  intros entry n Hin Hm. simpl in Hm.
  destruct (merge_key _ _ Hm) as [root [Hroot ->]].
  destruct (dedup_entry _ _ Hin) as [Hg _].
  rewrite Hg in Hroot. apply In_keyed in Hroot. now destruct Hroot.
Qed.

Lemma dedup_NoDup (l : list A) (out : list A) :
  dedup l = Ok out -> NoDup (map key out).
Proof.
  intros H. rewrite (dedup_keys _ _ H).
  apply NoDup_keys_Object_entries, NoDup_keys_groupBy.
Qed.

Lemma dedup_key_In (l : list A) (out : list A) (k : string) :
  dedup l = Ok out -> (In k (map key out) <-> In k (map key l)).
Proof.
  intros H. rewrite (dedup_keys _ _ H), <- (keys_groupBy key l k).
  split; apply Permutation_in; apply Permutation_map;
    [apply Object_entries_perm | symmetry; apply Object_entries_perm].
Qed.

(** Every output element is the merge of exactly the inputs with its key. *)
Lemma dedup_group (l : list A) (out : list A) (n : A) :
  dedup l = Ok out -> In n out ->
  merge (keyed key (key n) l) = Ok n /\ keyed key (key n) l <> [].
Proof.
  intros H Hin. apply mapM_Forall2 in H.
  destruct (Forall2_In_r _ _ _ _ H Hin) as [entry [He Hm]].
  destruct (dedup_entry _ _ He) as [Hg Hne].
  destruct (merge_key _ _ Hm) as [root [Hroot Hk]].
  rewrite Hg in Hroot. apply In_keyed in Hroot. destruct Hroot as [_ Hroot].
  rewrite Hk, Hroot, <- Hg. auto.
Qed.

End DedupFacts.

(* ================================================================== *)
(** * Facts about the node builder *)
(* ================================================================== *)

Section NodeFacts.

Context {rt : Runtime}.

Lemma map_flat {X Y Z : Type} (g : X -> list Y) (h : Y -> Z) (l : list X) :
  map h (flat (map g l)) = flat (map (fun x => map h (g x)) l).
Proof.
  unfold flat. now rewrite concat_map, map_map.
Qed.

Lemma In_flat_map {X Y : Type} (g : X -> list Y) (l : list X) (y : Y) :
  In y (flat (map g l)) <-> exists x, In x l /\ In y (g x).
Proof.
  unfold flat. rewrite <- flat_map_concat_map. apply in_flat_map.
Qed.

(** The candidate ids are exactly the ids taking part in a relation. *)
Lemma nodesButRedundant_ids (data : Query.t) :
  map PartialNode.id (nodesButRedundant data) = relatedIds data.
Proof.
  unfold nodesButRedundant. rewrite !map_app. unfold relatedIds.
  f_equal; [|f_equal; [|f_equal]].
  - unfold nodesFromAccounts. now rewrite map_map.
  - unfold nodesFromPoolMembers. now rewrite map_flat.
  - unfold nodesFromPoolDistributors. now rewrite map_flat.
  - unfold nodesFromStreams. now rewrite map_flat.
Qed.

Lemma fold_left_orb {X : Type} (p : X -> bool) (l : list X) (b : bool) :
  fold_left (fun acc curr => acc || p curr) l b = b || existsb p l.
Proof.
  revert b. induction l as [|x l IH]; intros b; simpl.
  - now rewrite orb_false_r.
  - now rewrite IH, orb_assoc.
Qed.

Lemma existsb_truthy (fl : NodeData.t -> option bool) (g : list PartialNode.t) :
  existsb (fun d => truthy (fl d)) (map PartialNode.data g) = true <->
  exists c, In c g /\ fl (PartialNode.data c) = Some true.
Proof.
  rewrite existsb_exists. split.
  - intros [d [Hd Ht]]. apply in_map_iff in Hd. destruct Hd as [c [<- Hc]].
    exists c. split; [assumption|].
    destruct (fl (PartialNode.data c)) as [[|]|]; simpl in Ht; congruence.
  - intros [c [Hc Hfl]]. exists (PartialNode.data c). split.
    + now apply in_map.
    + now rewrite Hfl.
Qed.

Lemma mergeNodes_ok (g : list PartialNode.t) :
  g <> [] -> exists n, mergeNodes g = Ok n.
Proof.
  destruct g as [|root [|c g]]; [congruence| |]; simpl; eauto.
Qed.

Lemma mergeNodes_key (g : list PartialNode.t) (n : PartialNode.t) :
  mergeNodes g = Ok n ->
  exists root, In root g /\ PartialNode.id n = PartialNode.id root.
Proof.
  destruct g as [|root [|c g]]; simpl; [discriminate| |];
    intros [= <-]; exists root; simpl; auto.
Qed.

(** The flags of a merge of two candidates or more. *)
Lemma mergeNodes_many (root c : PartialNode.t) (g : list PartialNode.t)
      (n : PartialNode.t) :
  mergeNodes (root :: c :: g) = Ok n ->
  let datas := map PartialNode.data (root :: c :: g) in
  NodeData.isPool (PartialNode.data n)
  = Some (existsb (fun d => truthy (NodeData.isPool d)) datas)
  /\ NodeData.isSuperApp (PartialNode.data n)
     = Some (existsb (fun d => truthy (NodeData.isSuperApp d)) datas)
  /\ NodeData.isSelected (PartialNode.data n)
     = Some (existsb (fun d => truthy (NodeData.isSelected d)) datas).
Proof.
  intros [= <-]. simpl. repeat split.
  now rewrite fold_left_orb, orb_assoc.
Qed.

(** A flag raised by a member of the group is raised in the merge. *)
Lemma mergeNodes_flags_up (g : list PartialNode.t) (n c : PartialNode.t) :
  mergeNodes g = Ok n -> In c g ->
  (NodeData.isPool (PartialNode.data c) = Some true ->
   NodeData.isPool (PartialNode.data n) = Some true)
  /\ (NodeData.isSuperApp (PartialNode.data c) = Some true ->
      NodeData.isSuperApp (PartialNode.data n) = Some true)
  /\ (NodeData.isSelected (PartialNode.data c) = Some true ->
      NodeData.isSelected (PartialNode.data n) = Some true).
Proof.
  destruct g as [|root [|c2 g]]; [discriminate| |].
  - simpl. intros [= <-] [<-|[]]. auto.
  - intros Hm Hin. apply mergeNodes_many in Hm.
    destruct Hm as [-> [-> ->]].
    repeat split; intros Hc; f_equal; apply existsb_truthy; eauto.
Qed.

(** A flag raised in the merge was raised by a member of the group. *)
Lemma mergeNodes_flags_down (g : list PartialNode.t) (n : PartialNode.t) :
  mergeNodes g = Ok n ->
  (NodeData.isPool (PartialNode.data n) = Some true ->
   exists c, In c g /\ NodeData.isPool (PartialNode.data c) = Some true)
  /\ (NodeData.isSelected (PartialNode.data n) = Some true ->
      exists c, In c g /\ NodeData.isSelected (PartialNode.data c) = Some true).
Proof.
  destruct g as [|root [|c2 g]]; [discriminate| |].
  - simpl. intros [= <-]. split; intros H; exists root; auto.
  - intros Hm. apply mergeNodes_many in Hm.
    destruct Hm as [-> [_ ->]].
    split; intros H.
    + apply (proj1 (existsb_truthy NodeData.isPool _)). congruence.
    + apply (proj1 (existsb_truthy NodeData.isSelected _)). congruence.
Qed.

Lemma fullNode_inv (chain : number) (m : PartialNode.t) (n : MyNode.t) :
  fullNode chain m = Ok n ->
  MyNode.id n = PartialNode.id m
  /\ MyNodeData.isPool (MyNode.data n) = NodeData.isPool (PartialNode.data m)
  /\ MyNodeData.isSuperApp (MyNode.data n) = NodeData.isSuperApp (PartialNode.data m)
  /\ MyNodeData.isSelected (MyNode.data n) = NodeData.isSelected (PartialNode.data m).
Proof.
  unfold fullNode. destruct (getAddress (PartialNode.id m)); simpl; [|discriminate].
  intros [= <-]. simpl. auto.
Qed.

Lemma mapNodes_inv (chain : number) (data : Query.t) (nodes : list MyNode.t) :
  mapNodes chain data = Ok nodes ->
  exists merged,
    uniqMergedNodes data = Ok merged
    /\ Forall2 (fun m n => fullNode chain m = Ok n) merged nodes.
Proof.
  unfold mapNodes. destruct (uniqMergedNodes data) as [merged|e]; simpl; [|discriminate].
  intros H. exists merged. split; [reflexivity|]. now apply mapM_Forall2.
Qed.

Lemma mapNodes_ids (chain : number) (data : Query.t) (nodes : list MyNode.t) :
  mapNodes chain data = Ok nodes ->
  exists merged,
    uniqMergedNodes data = Ok merged
    /\ map MyNode.id nodes = map PartialNode.id merged.
Proof.
  intros H. destruct (mapNodes_inv _ _ _ H) as [merged [Hm HF]].
  exists merged. split; [assumption|]. symmetry.
  apply Forall2_map_eq. eapply Forall2_impl_In; [|exact HF].
  intros m n _ Hf. apply fullNode_inv in Hf. symmetry. tauto.
Qed.

Lemma mapNodes_NoDup (chain : number) (data : Query.t) (nodes : list MyNode.t) :
  mapNodes chain data = Ok nodes -> NoDup (map MyNode.id nodes).
Proof.
  intros H. destruct (mapNodes_ids _ _ _ H) as [merged [Hm ->]].
  exact (dedup_NoDup PartialNode.id mergeNodes mergeNodes_key _ _ Hm).
Qed.

Lemma mapNodes_id_In (chain : number) (data : Query.t) (nodes : list MyNode.t)
      (a : string) :
  mapNodes chain data = Ok nodes ->
  (In a (map MyNode.id nodes) <-> In a (relatedIds data)).
Proof.
  intros H. destruct (mapNodes_ids _ _ _ H) as [merged [Hm ->]].
  rewrite <- nodesButRedundant_ids.
  exact (dedup_key_In PartialNode.id mergeNodes mergeNodes_key _ _ _ Hm).
Qed.

(** An output node is the merge of the candidates that carry its id. *)
Lemma mapNodes_group (chain : number) (data : Query.t) (nodes : list MyNode.t)
      (n : MyNode.t) :
  mapNodes chain data = Ok nodes -> In n nodes ->
  exists m,
    mergeNodes (keyed PartialNode.id (MyNode.id n) (nodesButRedundant data)) = Ok m
    /\ fullNode chain m = Ok n.
Proof.
  intros H Hin. destruct (mapNodes_inv _ _ _ H) as [merged [Hm HF]].
  destruct (Forall2_In_r _ _ _ _ HF Hin) as [m [Hmin Hf]].
  exists m. split; [|assumption].
  destruct (fullNode_inv _ _ _ Hf) as [-> _].
  exact (proj1 (dedup_group PartialNode.id mergeNodes mergeNodes_key _ _ _ Hm Hmin)).
Qed.

End NodeFacts.

(* ================================================================== *)
(** * Facts about the edge builder *)
(* ================================================================== *)

Section EdgeFacts.

Context {rt : Runtime}.

(** ** Candidates *)

Lemma memberFlowRate_positive (x : PoolMember.t) (u f t : Z) :
  BigInt (PoolMember.units x) = Ok u -> 0 < u ->
  BigInt (PoolRef.flowRate (PoolMember.pool x)) = Ok f ->
  BigInt (PoolRef.totalUnits (PoolMember.pool x)) = Ok t ->
  memberFlowRate x = Ok (Z.quot (f * t) u).
Proof.
  intros Hu Hpos Hf Ht. unfold memberFlowRate. rewrite Hu. simpl.
  destruct (Z.gtb_spec u 0) as [_|Hle]; [|lia].
  rewrite Hf, Ht. simpl. unfold bigint_div.
  destruct (Z.eqb_spec u 0); [lia|reflexivity].
Qed.

Lemma memberFlowRate_not_positive (x : PoolMember.t) (u : Z) :
  BigInt (PoolMember.units x) = Ok u -> u <= 0 -> memberFlowRate x = Ok 0.
Proof.
  intros Hu Hle. unfold memberFlowRate. rewrite Hu. simpl.
  destruct (Z.gtb_spec u 0); [lia|reflexivity].
Qed.

(** Whatever leaves [memberFlowRate] as an exception was raised by one of
    the three conversions: the quotient itself never raises. *)
Lemma memberFlowRate_Throw (x : PoolMember.t) (e : exn) :
  memberFlowRate x = Throw e ->
  BigInt (PoolMember.units x) = Throw e
  \/ BigInt (PoolRef.flowRate (PoolMember.pool x)) = Throw e
  \/ BigInt (PoolRef.totalUnits (PoolMember.pool x)) = Throw e.
Proof.
  unfold memberFlowRate.
  destruct (BigInt (PoolMember.units x)) as [u|e1] eqn:Hu; simpl; [|auto].
  destruct (Z.gtb_spec u 0) as [Hpos|Hle]; [|discriminate].
  destruct (BigInt (PoolRef.flowRate (PoolMember.pool x))) as [f|e2]; simpl; [|auto].
  destruct (BigInt (PoolRef.totalUnits (PoolMember.pool x))) as [t|e3]; simpl; [|auto].
  unfold bigint_div. destruct (Z.eqb_spec u 0); [lia|discriminate].
Qed.

Lemma edgeFromPoolMember_inv (x : PoolMember.t) (c : PartialEdge.t) :
  edgeFromPoolMember x = Ok c ->
  memberFlowRate x = Ok (EdgeData.flowRate (PartialEdge.data c))
  /\ PartialEdge.source c = PoolRef.id (PoolMember.pool x)
  /\ PartialEdge.target c = AccountRef.id (PoolMember.account x).
Proof.
  unfold edgeFromPoolMember. destruct (memberFlowRate x); simpl; [|discriminate].
  intros [= <-]. simpl. auto.
Qed.

Lemma edgeFromPoolDistributor_inv (x : PoolDistributor.t) (c : PartialEdge.t) :
  edgeFromPoolDistributor x = Ok c ->
  PartialEdge.source c = AccountRef.id (PoolDistributor.account x)
  /\ PartialEdge.target c = PoolRef.id (PoolDistributor.pool x).
Proof.
  unfold edgeFromPoolDistributor.
  destruct (BigInt (PoolDistributor.flowRate x)); simpl; [|discriminate].
  intros [= <-]. simpl. auto.
Qed.

Lemma edgeFromStream_inv (x : Stream.t) (c : PartialEdge.t) :
  edgeFromStream x = Ok c ->
  PartialEdge.source c = AccountRef.id (Stream.sender x)
  /\ PartialEdge.target c = AccountRef.id (Stream.receiver x).
Proof.
  unfold edgeFromStream.
  destruct (BigInt (Stream.currentFlowRate x)); simpl; [|discriminate].
  intros [= <-]. simpl. auto.
Qed.

Lemma edgesButRedundant_inv (data : Query.t) (redundant : list PartialEdge.t) :
  edgesButRedundant data = Ok redundant ->
  exists ds ms ss,
    edgesFromPoolDistributors data = Ok ds
    /\ edgesFromPoolMembers data = Ok ms
    /\ edgesFromStreams data = Ok ss
    /\ redundant = ms ++ ss ++ ds.
Proof.
  unfold edgesButRedundant.
  destruct (edgesFromPoolDistributors data) as [ds|]; simpl; [|discriminate].
  destruct (edgesFromPoolMembers data) as [ms|]; simpl; [|discriminate].
  destruct (edgesFromStreams data) as [ss|]; simpl; [|discriminate].
  intros [= <-]. exists ds, ms, ss. auto.
Qed.

(** Both ends of a candidate edge take part in a relation the node builder
    reads. *)
Lemma edgesButRedundant_endpoints (data : Query.t) (redundant : list PartialEdge.t)
      (c : PartialEdge.t) :
  edgesButRedundant data = Ok redundant -> In c redundant ->
  In (PartialEdge.source c) (relatedIds data)
  /\ In (PartialEdge.target c) (relatedIds data).
Proof.
  intros H Hin.
  destruct (edgesButRedundant_inv _ _ H) as (ds & ms & ss & Hd & Hm & Hs & ->).
  unfold relatedIds. rewrite !in_app_iff, !In_flat_map.
  rewrite !in_app_iff in Hin. destruct Hin as [Hin|[Hin|Hin]].
  - apply mapM_Forall2 in Hm.
    destruct (Forall2_In_r _ _ _ _ Hm Hin) as [x [Hx Hc]].
    apply edgeFromPoolMember_inv in Hc. destruct Hc as (_ & -> & ->).
    split; right; left; exists x; simpl; auto.
  - apply mapM_Forall2 in Hs.
    destruct (Forall2_In_r _ _ _ _ Hs Hin) as [x [Hx Hc]].
    apply edgeFromStream_inv in Hc. destruct Hc as (-> & ->).
    split; right; right; right; exists x; simpl; auto.
  - apply mapM_Forall2 in Hd.
    destruct (Forall2_In_r _ _ _ _ Hd Hin) as [x [Hx Hc]].
    apply edgeFromPoolDistributor_inv in Hc. destruct Hc as (-> & ->).
    split; right; right; left; exists x; simpl; auto.
Qed.

(** ** Deduplication *)

Lemma fold_left_sum {X : Type} (h : X -> Z) (l : list X) (a : Z) :
  fold_left (fun acc x => acc + h x) l a = a + sumZ (map h l).
Proof.
  revert a. induction l as [|x l IH]; intros a; simpl; [lia|].
  rewrite IH. lia.
Qed.

Lemma mergeEdges_ok (g : list PartialEdge.t) :
  g <> [] -> exists n, mergeEdges g = Ok n.
Proof.
  destruct g as [|root [|c g]]; [congruence| |]; simpl; eauto.
Qed.

(** The merge keeps the first candidate's id and endpoints and carries
    the sum of the group's flow rates. *)
Lemma mergeEdges_inv (g : list PartialEdge.t) (n : PartialEdge.t) :
  mergeEdges g = Ok n ->
  exists root,
    In root g
    /\ PartialEdge.id n = PartialEdge.id root
    /\ PartialEdge.source n = PartialEdge.source root
    /\ PartialEdge.target n = PartialEdge.target root
    /\ EdgeData.flowRate (PartialEdge.data n)
       = sumZ (map (fun c => EdgeData.flowRate (PartialEdge.data c)) g).
Proof.
  destruct g as [|root [|c g]]; [discriminate| |]; intros [= <-]; exists root.
  - simpl. repeat split; auto. lia.
  - cbn [PartialEdge.id PartialEdge.source PartialEdge.target PartialEdge.data
         EdgeData.flowRate].
    repeat split; try reflexivity; [now left|].
    rewrite fold_left_sum. simpl. lia.
Qed.

Lemma mergeEdges_key (g : list PartialEdge.t) (n : PartialEdge.t) :
  mergeEdges g = Ok n ->
  exists root, In root g /\ PartialEdge.id n = PartialEdge.id root.
Proof.
  intros H. destruct (mergeEdges_inv _ _ H) as (root & ? & ? & _). eauto.
Qed.

Lemma uniqEdges_total (redundant : list PartialEdge.t) :
  exists uniq, uniqEdges redundant = Ok uniq.
Proof.
  apply dedup_total, mergeEdges_ok.
Qed.

(** No two deduplicated edges carry the same id. *)
Lemma uniqEdges_ids_NoDup (redundant uniq : list PartialEdge.t) :
  uniqEdges redundant = Ok uniq -> NoDup (map PartialEdge.id uniq).
Proof.
  exact (dedup_NoDup PartialEdge.id mergeEdges mergeEdges_key redundant uniq).
Qed.

Lemma uniqEdges_flowRate (redundant uniq : list PartialEdge.t) (u : PartialEdge.t) :
  uniqEdges redundant = Ok uniq -> In u uniq ->
  EdgeData.flowRate (PartialEdge.data u)
  = sumZ (map (fun c => EdgeData.flowRate (PartialEdge.data c))
              (sharingId (PartialEdge.id u) redundant)).
Proof.
  intros H Hin.
  destruct (dedup_group PartialEdge.id mergeEdges mergeEdges_key _ _ _ H Hin)
    as [Hm _].
  destruct (mergeEdges_inv _ _ Hm) as (_ & _ & _ & _ & _ & Hflow).
  exact Hflow.
Qed.

Lemma uniqEdges_endpoints (redundant uniq : list PartialEdge.t) (u : PartialEdge.t) :
  uniqEdges redundant = Ok uniq -> In u uniq ->
  exists c, In c redundant
            /\ PartialEdge.source u = PartialEdge.source c
            /\ PartialEdge.target u = PartialEdge.target c.
Proof.
  intros H Hin.
  destruct (dedup_group PartialEdge.id mergeEdges mergeEdges_key _ _ _ H Hin)
    as [Hm _].
  destruct (mergeEdges_inv _ _ Hm) as (root & Hroot & _ & Hs & Ht & _).
  apply In_keyed in Hroot. exists root. tauto.
Qed.

(** ** Parallel-edge metadata *)

Lemma EdgeToken_eqb_eq (a b : EdgeToken.t) : EdgeToken_eqb a b = true <-> a = b.
Proof.
  unfold EdgeToken_eqb. rewrite andb_true_iff, !String.eqb_eq.
  destruct a, b; simpl. split; [intros [-> ->]; reflexivity|intros [= -> ->]; auto].
Qed.

Lemma PartialEdge_eqb_eq (a b : PartialEdge.t) : PartialEdge_eqb a b = true <-> a = b.
Proof.
  unfold PartialEdge_eqb.
  rewrite !andb_true_iff, !String.eqb_eq, EdgeToken_eqb_eq, Z.eqb_eq.
  destruct a as [i s t [tk fr]], b as [i' s' t' [tk' fr']]; simpl.
  split; [intros [[[[-> ->] ->] ->] ->]; reflexivity|intros [= -> -> -> -> ->]; auto].
Qed.

Lemma indexOf_bounds {X : Type} (eqb : X -> X -> bool) (x : X) (l : list X) :
  -1 <= indexOf eqb x l < length_of l.
Proof.
  unfold length_of. induction l as [|y l IH]; simpl List.length; cbn [indexOf]; [lia|].
  destruct (eqb y x); [lia|].
  destruct (Z.ltb_spec (indexOf eqb x l) 0); lia.
Qed.

Section IndexOfFacts.

Context {X : Type}.
Variable eqb : X -> X -> bool.
Hypothesis eqb_eq : forall a b, eqb a b = true <-> a = b.

Lemma indexOf_In (x : X) (l : list X) : In x l -> 0 <= indexOf eqb x l.
Proof.
  induction l as [|y l IH]; intros Hin; [contradiction|]. cbn [indexOf].
  destruct (eqb y x) eqn:E; [lia|].
  destruct Hin as [->|Hin].
  - rewrite (proj2 (eqb_eq x x) eq_refl) in E. discriminate.
  - specialize (IH Hin). destruct (Z.ltb_spec (indexOf eqb x l) 0); lia.
Qed.

(** A position returned by [indexOf] holds the element searched for. *)
Lemma indexOf_nth (x : X) (l : list X) :
  0 <= indexOf eqb x l -> nth_error l (Z.to_nat (indexOf eqb x l)) = Some x.
Proof.
  induction l as [|y l IH]; cbn [indexOf]; [lia|].
  destruct (eqb y x) eqn:E.
  - intros _. apply eqb_eq in E. now subst.
  - destruct (Z.ltb_spec (indexOf eqb x l) 0) as [Hlt|Hge]; [lia|].
    intros _. replace (Z.to_nat (1 + indexOf eqb x l))
      with (S (Z.to_nat (indexOf eqb x l))) by lia.
    simpl. auto.
Qed.

Lemma indexOf_inj (x y : X) (l : list X) :
  In x l -> indexOf eqb x l = indexOf eqb y l -> x = y.
Proof.
  intros Hin Heq. pose proof (indexOf_In x l Hin) as Hx.
  pose proof (indexOf_nth x l Hx) as Hnx.
  rewrite Heq in Hx, Hnx. rewrite (indexOf_nth y l Hx) in Hnx. congruence.
Qed.

End IndexOfFacts.

Lemma fullEdge_inv (o : object (list PartialEdge.t)) (x : PartialEdge.t)
      (e : MyEdge.t) :
  fullEdge o x = Ok e ->
  exists group,
    get o (pairKey x) = Some group
    /\ MyEdge.id e = PartialEdge.id x
    /\ MyEdge.source e = PartialEdge.source x
    /\ MyEdge.target e = PartialEdge.target x
    /\ MyEdgeData.flowRate (MyEdge.data e) = EdgeData.flowRate (PartialEdge.data x)
    /\ edgeLength e = length_of group
    /\ edgeIndex e = indexOf PartialEdge_eqb x group.
Proof.
  unfold fullEdge. destruct (get o (pairKey x)) as [group|]; [|discriminate].
  intros [= <-]. exists group. unfold edgeLength, edgeIndex. simpl. tauto.
Qed.

Lemma edgesWithFullData_total (uniq : list PartialEdge.t) :
  exists edges, edgesWithFullData uniq = Ok edges.
Proof.
  apply mapM_total. intros x Hin. unfold fullEdge.
  rewrite (get_groupBy_In pairKey uniq x Hin). eauto.
Qed.

(** What the last step attaches to a deduplicated edge [x]: the size of
    the group of edges with [x]'s pair key, and [x]'s position in it. *)
Lemma edgesWithFullData_inv (uniq : list PartialEdge.t) (edges : list MyEdge.t) :
  edgesWithFullData uniq = Ok edges ->
  Forall2 (fun x e =>
             fullEdge (groupBy uniq pairKey) x = Ok e
             /\ MyEdge.id e = PartialEdge.id x
             /\ MyEdge.source e = PartialEdge.source x
             /\ MyEdge.target e = PartialEdge.target x
             /\ MyEdgeData.flowRate (MyEdge.data e)
                = EdgeData.flowRate (PartialEdge.data x)
             /\ edgeLength e = length_of (keyed pairKey (pairKey x) uniq)
             /\ edgeIndex e
                = indexOf PartialEdge_eqb x (keyed pairKey (pairKey x) uniq))
          uniq edges.
Proof.
  intros H. apply mapM_Forall2 in H.
  eapply Forall2_impl_In; [|exact H].
  intros x e Hin Hf. simpl in Hf.
  destruct (fullEdge_inv _ _ _ Hf) as (group & Hget & Hrest).
  rewrite (get_groupBy_In pairKey uniq x Hin) in Hget.
  injection Hget as <-. split; [exact Hf|exact Hrest].
Qed.

Lemma mapEdges_inv (data : Query.t) (edges : list MyEdge.t) :
  mapEdges data = Ok edges ->
  exists redundant uniq,
    edgesButRedundant data = Ok redundant
    /\ uniqEdges redundant = Ok uniq
    /\ edgesWithFullData uniq = Ok edges.
Proof.
  unfold mapEdges.
  destruct (edgesButRedundant data) as [redundant|]; simpl; [|discriminate].
  destruct (uniqEdges redundant) as [uniq|] eqn:Hu; simpl; [|discriminate].
  intros H. exists redundant, uniq. auto.
Qed.

(** The edge builder returns as soon as the candidates could be built. *)
Lemma mapEdges_total (data : Query.t) (redundant : list PartialEdge.t) :
  edgesButRedundant data = Ok redundant ->
  exists edges, mapEdges data = Ok edges.
Proof.
  intros H. unfold mapEdges. rewrite H. simpl.
  destruct (uniqEdges_total redundant) as [uniq ->]. simpl.
  apply edgesWithFullData_total.
Qed.

End EdgeFacts.

(** ** The pair key *)

Lemma sort2_comm (a b : string) : sort2 a b = sort2 b a.
Proof.
  unfold sort2, String.ltb. rewrite (String.compare_antisym a b).
  destruct (String.compare b a) eqn:E; simpl; try reflexivity.
  apply String.compare_eq_iff in E. now subst.
Qed.

Lemma sort2_cases (a b : string) : sort2 a b = [a; b] \/ sort2 a b = [b; a].
Proof.
  unfold sort2. destruct (String.ltb b a); auto.
Qed.

(** A key splits at its first separator when the first id has none. *)
Lemma join_dash_inj (a b c d : string) :
  dashFree a = true -> dashFree c = true ->
  (a ++ "-" ++ b)%string = (c ++ "-" ++ d)%string -> a = c /\ b = d.
Proof.
  revert c. induction a as [|x a IH]; intros [|y c] Ha Hc H; simpl in *.
  - injection H as ->. auto.
  - injection H as <- _. simpl in Hc. discriminate.
  - injection H as -> _. simpl in Ha. discriminate.
  - injection H as -> H.
    apply andb_true_iff in Ha, Hc. destruct Ha as [_ Ha], Hc as [_ Hc].
    destruct (IH c Ha Hc H) as [-> ->]. auto.
Qed.

Lemma pairKey_eq_iff (x y : PartialEdge.t) :
  dashFree (PartialEdge.source x) = true -> dashFree (PartialEdge.target x) = true ->
  dashFree (PartialEdge.source y) = true -> dashFree (PartialEdge.target y) = true ->
  (pairKey x = pairKey y <->
   (PartialEdge.source x = PartialEdge.source y
    /\ PartialEdge.target x = PartialEdge.target y)
   \/ (PartialEdge.source x = PartialEdge.target y
       /\ PartialEdge.target x = PartialEdge.source y)).
Proof.
  intros Hsx Htx Hsy Hty. unfold pairKey. split.
  - intros H.
    destruct (sort2_cases (PartialEdge.source x) (PartialEdge.target x)) as [Ex|Ex];
      destruct (sort2_cases (PartialEdge.source y) (PartialEdge.target y)) as [Ey|Ey];
      rewrite Ex, Ey in H; unfold join in H; simpl in H;
      apply join_dash_inj in H; tauto.
  - intros [[-> ->]|[-> ->]]; [reflexivity|]. now rewrite sort2_comm.
Qed.

Lemma samePairb_true_iff (a b : MyEdge.t) :
  samePairb a b = true <->
  (MyEdge.source a = MyEdge.source b /\ MyEdge.target a = MyEdge.target b)
  \/ (MyEdge.source a = MyEdge.target b /\ MyEdge.target a = MyEdge.source b).
Proof.
  unfold samePairb. now rewrite orb_true_iff, !andb_true_iff, !String.eqb_eq.
Qed.

(** The metadata of the output edges, read against the output list
    itself. *)
Lemma edgesWithFullData_metadata (uniq : list PartialEdge.t) (edges : list MyEdge.t) :
  edgesWithFullData uniq = Ok edges ->
  forall e, In e edges ->
    0 <= edgeIndex e < edgeLength e
    /\ (forall e', In e' edges -> samePairb e e' = true ->
                   edgeIndex e = edgeIndex e' -> e = e')
    /\ ((forall e', In e' edges ->
           dashFree (MyEdge.source e') = true /\ dashFree (MyEdge.target e') = true) ->
        edgeLength e = length_of (filter (samePairb e) edges)).
Proof.
  intros H e Hin.
  pose proof (edgesWithFullData_inv _ _ H) as HF.
  destruct (Forall2_In_r _ _ _ _ HF Hin)
    as (x & Hx & Hfull & Hid & Hs & Ht & _ & Hlen & Hidx).
  assert (Hxg : In x (keyed pairKey (pairKey x) uniq))
    by (apply In_keyed; auto).
  split; [|split].
  - rewrite Hlen, Hidx. split.
    + now apply (indexOf_In _ PartialEdge_eqb_eq).
    + apply indexOf_bounds.
  - intros e' Hin' Hpair Heq.
    destruct (Forall2_In_r _ _ _ _ HF Hin')
      as (x' & Hx' & Hfull' & _ & Hs' & Ht' & _ & _ & Hidx').
    assert (Hk : pairKey x' = pairKey x).
    { apply samePairb_true_iff in Hpair. unfold pairKey.
      rewrite <- Hs, <- Ht, <- Hs', <- Ht'.
      destruct Hpair as [[-> ->]|[-> ->]]; [reflexivity|apply f_equal, sort2_comm]. }
    rewrite Hidx, Hidx', Hk in Heq.
    apply (indexOf_inj _ PartialEdge_eqb_eq) in Heq; [|assumption]. subst x'.
    congruence.
  - intros Hdash. rewrite Hlen. unfold length_of, keyed. f_equal.
    apply (Forall2_filter_length _ _ _ _ _ HF).
    intros y e' Hy He' (_ & _ & Hsy & Hty & _).
    destruct (Hdash e Hin) as [D1 D2]. destruct (Hdash e' He') as [D3 D4].
    apply Bool.eq_iff_eq_true.
    rewrite String.eqb_eq, samePairb_true_iff, pairKey_eq_iff by congruence.
    rewrite Hs, Ht, Hsy, Hty. intuition congruence.
Qed.

(* ================================================================== *)
(** * Facts about the entry point *)
(* ================================================================== *)

Section MapperFacts.

Context {rt : Runtime}.

Lemma dataMapper_inv (chain : number) (data : Query.t) (r : MyMappedData.t) :
  dataMapper chain data = Ok r ->
  mapNodes chain data = Ok (MyMappedData.nodes r)
  /\ mapEdges data = Ok (MyMappedData.edges r)
  /\ exists meta,
       Query._meta data = Some meta
       /\ MyMappedData.latestBlock r
          = Some {| LatestBlock.number := Number (Block.number (Meta.block meta));
                    LatestBlock.timestamp :=
                      fromUnixTime (Block.timestamp (Meta.block meta)) |}.
Proof.
  unfold dataMapper.
  destruct (mapNodes chain data) as [nodes|]; simpl; [|discriminate].
  destruct (mapEdges data) as [edges|]; simpl; [|discriminate].
  destruct (Query._meta data) as [meta|]; [|discriminate].
  intros [= <-]. simpl. eauto.
Qed.

(** Every id in a relation went through [getAddress] when the node
    builder returned. *)
Lemma mapNodes_addresses (chain : number) (data : Query.t) (nodes : list MyNode.t)
      (a : string) :
  mapNodes chain data = Ok nodes -> In a (relatedIds data) ->
  exists c, getAddress a = Ok c.
Proof.
  intros H Hin. apply (mapNodes_id_In _ _ _ a H) in Hin.
  apply in_map_iff in Hin. destruct Hin as [n [<- Hn]].
  destruct (mapNodes_inv _ _ _ H) as [merged [_ HF]].
  destruct (Forall2_In_r _ _ _ _ HF Hn) as [m [_ Hf]].
  unfold fullNode in Hf.
  destruct (getAddress (PartialNode.id m)) as [c|] eqn:E; [|discriminate].
  simpl in Hf. injection Hf as <-. simpl. eauto.
Qed.

Lemma mapEdges_endpoints (data : Query.t) (edges : list MyEdge.t) (e : MyEdge.t) :
  mapEdges data = Ok edges -> In e edges ->
  In (MyEdge.source e) (relatedIds data) /\ In (MyEdge.target e) (relatedIds data).
Proof.
  intros H Hin.
  destruct (mapEdges_inv _ _ H) as (redundant & uniq & Hr & Hu & Hf).
  pose proof (edgesWithFullData_inv _ _ Hf) as HF.
  destruct (Forall2_In_r _ _ _ _ HF Hin) as (x & Hx & _ & _ & -> & -> & _).
  destruct (uniqEdges_endpoints _ _ _ Hu Hx) as (c & Hc & -> & ->).
  exact (edgesButRedundant_endpoints _ _ _ Hr Hc).
Qed.

Lemma mapEdges_ids_NoDup (data : Query.t) (edges : list MyEdge.t) :
  mapEdges data = Ok edges -> NoDup (map MyEdge.id edges).
Proof.
  intros H.
  destruct (mapEdges_inv _ _ H) as (redundant & uniq & _ & Hu & Hf).
  pose proof (edgesWithFullData_inv _ _ Hf) as HF.
  replace (map MyEdge.id edges) with (map PartialEdge.id uniq).
  - exact (uniqEdges_ids_NoDup _ _ Hu).
  - apply Forall2_map_eq. eapply Forall2_impl_In; [|exact HF].
    intros x e _ (_ & Hid & _). now symmetry.
Qed.

Lemma nodeFromAccount_selected (data : Query.t) (c : PartialNode.t) :
  In c (nodesButRedundant data) ->
  NodeData.isSelected (PartialNode.data c) = Some true ->
  In (PartialNode.id c) (map Account.id (Query.selectedAccounts data)).
Proof.
  unfold nodesButRedundant, nodesFromAccounts, nodesFromPoolMembers,
    nodesFromPoolDistributors, nodesFromStreams.
  rewrite !in_app_iff, !In_flat_map, in_map_iff.
  intros [[x [<- Hx]]|[[x [_ Hc]]|[[x [_ Hc]]|[x [_ Hc]]]]] Hsel.
  - simpl. now apply in_map.
  - destruct Hc as [<-|[<-|[]]]; discriminate.
  - destruct Hc as [<-|[<-|[]]]; discriminate.
  - destruct Hc as [<-|[<-|[]]]; discriminate.
Qed.

Lemma nodeFromPoolRef_isPool (data : Query.t) (c : PartialNode.t) :
  In c (nodesButRedundant data) ->
  NodeData.isPool (PartialNode.data c) = Some true ->
  In (PartialNode.id c) (relationPoolIds data).
Proof.
  unfold nodesButRedundant, nodesFromAccounts, nodesFromPoolMembers,
    nodesFromPoolDistributors, nodesFromStreams, relationPoolIds.
  rewrite !in_app_iff, !In_flat_map, !in_map_iff.
  intros [[x [<- Hx]]|[[x [Hx Hc]]|[[x [Hx Hc]]|[x [_ Hc]]]]] Hp.
  - discriminate.
  - destruct Hc as [<-|[<-|[]]]; [|discriminate]. left. exists x. auto.
  - destruct Hc as [<-|[<-|[]]]; [|discriminate]. right. exists x. auto.
  - destruct Hc as [<-|[<-|[]]]; discriminate.
Qed.

End MapperFacts.

(* ================================================================== *)
(** * The properties of the mapper *)
(* ================================================================== *)

(** C1. For every pool membership, taken from the flat list or embedded in
    a selected pool, whose units are greater than 0, the extracted edge
    carries the flow rate [pool.flowRate * pool.totalUnits / member.units],
    the division being the bigint one, which truncates toward zero. With
    50 units, 200 total units and a pool flow rate of 1000 it is 4000. *)
Theorem C1_member_edge_flow_rate :
  forall {rt : Runtime} (data : Query.t) (x : PoolMember.t)
         (units flowRate totalUnits : Z),
    (In x (Query.poolMembers data)
     \/ exists p, In p (Query.selectedPools data) /\ In x (Pool.poolMembers p)) ->
    BigInt (PoolMember.units x) = Ok units ->
    0 < units ->
    BigInt (PoolRef.flowRate (PoolMember.pool x)) = Ok flowRate ->
    BigInt (PoolRef.totalUnits (PoolMember.pool x)) = Ok totalUnits ->
    exists c,
      edgeFromPoolMember x = Ok c
      /\ EdgeData.flowRate (PartialEdge.data c) = Z.quot (flowRate * totalUnits) units
      /\ (forall ms, edgesFromPoolMembers data = Ok ms -> In c ms)
      /\ (units = 50 -> totalUnits = 200 -> flowRate = 1000 ->
          EdgeData.flowRate (PartialEdge.data c) = 4000).
Proof.
  intros rt data x units flowRate totalUnits Hx Hu Hpos Hf Ht.
  pose proof (memberFlowRate_positive x units flowRate totalUnits Hu Hpos Hf Ht) as Hm.
  assert (Hall : In x (allPoolMembers data)).
  { unfold allPoolMembers. rewrite in_app_iff, In_flat_map. exact Hx. }
  unfold edgeFromPoolMember. rewrite Hm. simpl. eexists. split; [reflexivity|].
  simpl. split; [reflexivity|]. split.
  - intros ms Hms. apply mapM_Forall2 in Hms.
    destruct (Forall2_In_l _ _ _ _ Hms Hall) as [c [Hc Hx']].
    unfold edgeFromPoolMember in Hx'. rewrite Hm in Hx'. simpl in Hx'.
    injection Hx' as <-. exact Hc.
  - intros -> -> ->. reflexivity.
Qed.

(** C5. The flow rate of every deduplicated output edge is the exact
    integer sum of the flow rates of all the raw candidates (pool
    memberships, streams, pool distributorships) that carry its composite
    id. As soon as the candidates could be built the edge list exists, it
    holds one edge per candidate id and no other, and the edge standing
    for a candidate carries the sum over the candidates sharing that
    candidate's id. *)
Theorem C5_edge_flow_conservation :
  forall {rt : Runtime} (data : Query.t) (redundant : list PartialEdge.t),
    edgesButRedundant data = Ok redundant ->
    exists edges,
      mapEdges data = Ok edges
      /\ NoDup (map MyEdge.id edges)
      /\ (forall e, In e edges ->
            In (MyEdge.id e) (map PartialEdge.id redundant)
            /\ MyEdgeData.flowRate (MyEdge.data e)
               = sumZ (map (fun c => EdgeData.flowRate (PartialEdge.data c))
                           (sharingId (MyEdge.id e) redundant)))
      /\ (forall c, In c redundant ->
            exists e,
              In e edges
              /\ MyEdge.id e = PartialEdge.id c
              /\ MyEdgeData.flowRate (MyEdge.data e)
                 = sumZ (map (fun c' => EdgeData.flowRate (PartialEdge.data c'))
                             (sharingId (PartialEdge.id c) redundant))).
Proof.
  intros rt data redundant Hr.
  destruct (mapEdges_total _ _ Hr) as [edges He]. exists edges.
  split; [assumption|]. split; [exact (mapEdges_ids_NoDup _ _ He)|].
  destruct (mapEdges_inv _ _ He) as (redundant' & uniq & Hr' & Hu & Hf).
  assert (redundant' = redundant) by congruence. subst redundant'.
  pose proof (edgesWithFullData_inv _ _ Hf) as HF.
  assert (Hkeys : forall k, In k (map PartialEdge.id uniq)
                            <-> In k (map PartialEdge.id redundant))
    by (intros k;
        exact (dedup_key_In PartialEdge.id mergeEdges mergeEdges_key _ _ k Hu)).
  split.
  - intros e Hin.
    destruct (Forall2_In_r _ _ _ _ HF Hin) as (x & Hx & _ & -> & _ & _ & -> & _).
    split.
    + apply Hkeys. now apply in_map.
    + exact (uniqEdges_flowRate _ _ _ Hu Hx).
  - intros c Hc.
    assert (Hk : In (PartialEdge.id c) (map PartialEdge.id uniq))
      by (apply Hkeys; now apply in_map).
    apply in_map_iff in Hk. destruct Hk as (u & Hid & Hin).
    destruct (Forall2_In_l _ _ _ _ HF Hin) as (e & He' & _ & Hide & _ & _ & Hfl & _).
    exists e. split; [exact He'|]. split; [congruence|].
    rewrite Hfl, <- Hid. exact (uniqEdges_flowRate _ _ _ Hu Hin).
Qed.

(** C7. No two nodes of the output share an id, and the ids of the output
    nodes are exactly the ids that take part in a contributing relation:
    one node per distinct address. *)
Theorem C7_node_uniqueness :
  forall {rt : Runtime} (chain : number) (data : Query.t) (nodes : list MyNode.t),
    mapNodes chain data = Ok nodes ->
    NoDup (map MyNode.id nodes)
    /\ forall a, In a (map MyNode.id nodes) <-> In a (relatedIds data).
Proof.
  intros rt chain data nodes H. split.
  - exact (mapNodes_NoDup _ _ _ H).
  - intros a. exact (mapNodes_id_In _ _ _ a H).
Qed.

(** C8. Whenever a candidate contributing to an output node's id has
    [isPool], [isSuperApp] or [isSelected] set to true, the output node has
    that flag true. *)
Theorem C8_node_flag_monotonicity :
  forall {rt : Runtime} (chain : number) (data : Query.t) (nodes : list MyNode.t)
         (c : PartialNode.t) (n : MyNode.t),
    mapNodes chain data = Ok nodes ->
    In c (nodesButRedundant data) ->
    In n nodes ->
    MyNode.id n = PartialNode.id c ->
    (NodeData.isPool (PartialNode.data c) = Some true ->
     MyNodeData.isPool (MyNode.data n) = Some true)
    /\ (NodeData.isSuperApp (PartialNode.data c) = Some true ->
        MyNodeData.isSuperApp (MyNode.data n) = Some true)
    /\ (NodeData.isSelected (PartialNode.data c) = Some true ->
        MyNodeData.isSelected (MyNode.data n) = Some true).
Proof.
  intros rt chain data nodes c n H Hc Hn Hid.
  destruct (mapNodes_group _ _ _ _ H Hn) as (m & Hm & Hf).
  destruct (fullNode_inv _ _ _ Hf) as (_ & -> & -> & ->).
  apply (mergeNodes_flags_up _ _ c Hm).
  apply In_keyed. auto.
Qed.

(** C9. A pool membership whose units are 0 yields an edge of flow rate 0
    whatever the pool's flow rate and total units are, even when they do
    not parse: the quotient is not evaluated. More generally an exception
    leaving the flow-rate computation always comes from a conversion,
    never from a division by zero. *)
Theorem C9_zero_unit_guard :
  forall {rt : Runtime} (x : PoolMember.t),
    BigInt (PoolMember.units x) = Ok 0 ->
    (exists c, edgeFromPoolMember x = Ok c
               /\ EdgeData.flowRate (PartialEdge.data c) = 0)
    /\ (forall (y : PoolMember.t) (e : exn),
          memberFlowRate y = Throw e ->
          BigInt (PoolMember.units y) = Throw e
          \/ BigInt (PoolRef.flowRate (PoolMember.pool y)) = Throw e
          \/ BigInt (PoolRef.totalUnits (PoolMember.pool y)) = Throw e).
Proof.
  intros rt x Hu. split.
  - unfold edgeFromPoolMember.
    rewrite (memberFlowRate_not_positive x 0 Hu (Z.le_refl 0)). simpl.
    eexists. split; reflexivity.
  - intros y e. apply memberFlowRate_Throw.
Qed.

(** C10. Every output edge starts and ends at the id of an output node:
    each relation that yields an edge candidate also yields a node
    candidate for both of its ends. *)
Theorem C10_no_dangling_endpoints :
  forall {rt : Runtime} (chain : number) (data : Query.t)
         (nodes : list MyNode.t) (edges : list MyEdge.t),
    mapNodes chain data = Ok nodes ->
    mapEdges data = Ok edges ->
    (forall e, In e edges ->
       In (MyEdge.source e) (map MyNode.id nodes)
       /\ In (MyEdge.target e) (map MyNode.id nodes))
    /\ (forall redundant c,
          edgesButRedundant data = Ok redundant -> In c redundant ->
          In (PartialEdge.source c) (map PartialNode.id (nodesButRedundant data))
          /\ In (PartialEdge.target c) (map PartialNode.id (nodesButRedundant data))).
Proof.
  intros rt chain data nodes edges Hn He. split.
  - intros e Hin. rewrite !(mapNodes_id_In _ _ _ _ Hn).
    exact (mapEdges_endpoints _ _ _ He Hin).
  - intros redundant c Hr Hc. rewrite nodesButRedundant_ids.
    exact (edgesButRedundant_endpoints _ _ _ Hr Hc).
Qed.

(** C4. Selected pools add no candidate of their own to the
    deduplication: a selected pool whose id takes part in no membership,
    distributorship, stream or account selection has no node in the
    output, and the marks of the selected-pool candidate reach no output
    node, since an output node is selected only if it is a selected
    account and is a pool only if it is the pool of a membership or of a
    distributorship. *)
Theorem C4_selected_pools_emit_no_node :
  forall {rt : Runtime} (chain : number) (data : Query.t) (nodes : list MyNode.t),
    mapNodes chain data = Ok nodes ->
    (forall p, In p (Query.selectedPools data) ->
               ~ In (Pool.id p) (relatedIds data) ->
               ~ In (Pool.id p) (map MyNode.id nodes))
    /\ (forall n, In n nodes ->
                  MyNodeData.isSelected (MyNode.data n) = Some true ->
                  In (MyNode.id n) (map Account.id (Query.selectedAccounts data)))
    /\ (forall n, In n nodes ->
                  MyNodeData.isPool (MyNode.data n) = Some true ->
                  In (MyNode.id n) (relationPoolIds data)).
Proof.
  intros rt chain data nodes H. split; [|split].
  - intros p _ Hout Hin. apply Hout. now apply (mapNodes_id_In _ _ _ _ H).
  - intros n Hn Hsel.
    destruct (mapNodes_group _ _ _ _ H Hn) as (m & Hm & Hf).
    destruct (fullNode_inv _ _ _ Hf) as (_ & _ & _ & Hs). rewrite Hs in Hsel.
    destruct (proj2 (mergeNodes_flags_down _ _ Hm) Hsel) as (c & Hc & Hcs).
    apply In_keyed in Hc. destruct Hc as [Hc <-].
    now apply nodeFromAccount_selected.
  - intros n Hn Hpool.
    destruct (mapNodes_group _ _ _ _ H Hn) as (m & Hm & Hf).
    destruct (fullNode_inv _ _ _ Hf) as (_ & Hp & _). rewrite Hp in Hpool.
    destruct (proj1 (mergeNodes_flags_down _ _ Hm) Hpool) as (c & Hc & Hcp).
    apply In_keyed in Hc. destruct Hc as [Hc <-].
    now apply nodeFromPoolRef_isPool.
Qed.

(** C6. In every edge list the mapper returns, where each id passed the
    address check and so holds no ["-"], no two edges share an id, and for
    each edge: its index lies in [0, length), its length is the number of
    edges of the list joining the same unordered pair of endpoints, and no
    other edge joining that pair has the same index. One stream from A to
    B of rate 100 and one from B to A of rate 30 on the same token give
    two edges of length 2, with the indices 0 and 1. *)
Theorem C6_parallel_edge_metadata :
  (forall (rt : Runtime),
      (forall s a, getAddress s = Ok a -> dashFree s = true) ->
      forall (chain : number) (data : Query.t) (r : MyMappedData.t),
        dataMapper chain data = Ok r ->
        let edges := MyMappedData.edges r in
        NoDup (map MyEdge.id edges)
        /\ forall e, In e edges ->
             0 <= edgeIndex e < edgeLength e
             /\ edgeLength e = length_of (filter (samePairb e) edges)
             /\ forall e', In e' edges -> samePairb e e' = true ->
                           edgeIndex e = edgeIndex e' -> e = e')
  /\ exists r,
       @dataMapper Sample.runtime (Fin 1) Sample.twoWaySnapshot = Ok r
       /\ map edgeSummary (MyMappedData.edges r)
          = [ (edgeId Sample.tokenD Sample.alice Sample.bob,
               Sample.alice, Sample.bob, 100, 2, 0);
              (edgeId Sample.tokenD Sample.bob Sample.alice,
               Sample.bob, Sample.alice, 30, 2, 1) ].
Proof.
  split.
  - intros rt Haddr chain data r H edges.
    destruct (dataMapper_inv _ _ _ H) as (Hn & He & _). fold edges in He.
    destruct (mapEdges_inv _ _ He) as (redundant & uniq & _ & _ & Hf).
    split; [exact (mapEdges_ids_NoDup _ _ He)|].
    intros e Hin.
    destruct (edgesWithFullData_metadata _ _ Hf e Hin) as (Hrange & Huniq & Hlen).
    split; [exact Hrange|]. split; [|exact Huniq].
    apply Hlen. intros e' Hin'.
    destruct (mapEdges_endpoints _ _ _ He Hin') as [Hs Ht].
    destruct (mapNodes_addresses _ _ _ _ Hn Hs) as [cs Hcs].
    destruct (mapNodes_addresses _ _ _ _ Hn Ht) as [ct Hct].
    split; eapply Haddr; eassumption.
  - eexists. split; vm_compute; reflexivity.
Qed.

(** An account without per-token snapshots gets the values of
    [Math.min()] and [Math.max()] on no argument, whatever its own
    fields are. *)
Lemma nodeFromAccount_without_snapshots {rt : Runtime} (x : Account.t) :
  Account.accountTokenSnapshots x = [] ->
  let d := PartialNode.data (nodeFromAccount x) in
  NodeData.createdAtBlockNumber d = PosInf
  /\ NodeData.createdAtTimestamp d = PosInf
  /\ NodeData.updatedAtBlockNumber d = NegInf
  /\ NodeData.updatedAtTimestamp d = NegInf.
Proof.
  intros H. unfold nodeFromAccount. simpl. rewrite H. simpl. auto.
Qed.

(** C2, as the code runs: the node of a selected account that has no
    per-token snapshot carries [Infinity] as creation block and timestamp
    and [-Infinity] as update block and timestamp, not the account's own
    100, 1700000000, 200 and 1700009999. *)
Theorem C2_bare_account_gets_infinities :
  Account.accountTokenSnapshots (Sample.selectedAccount Sample.alice []) = []
  /\ map (fun f => @Number Sample.runtime (f (Sample.selectedAccount Sample.alice [])))
         [Account.createdAtBlockNumber; Account.createdAtTimestamp;
          Account.updatedAtBlockNumber; Account.updatedAtTimestamp]
     = [Fin 100; Fin 1700000000; Fin 200; Fin 1700009999]
  /\ exists n,
       @mapNodes Sample.runtime (Fin 1) Sample.bareAccountSnapshot = Ok [n]
       /\ map (fun f => f (MyNode.data n))
              [MyNodeData.createdAtBlockNumber; MyNodeData.createdAtTimestamp;
               MyNodeData.updatedAtBlockNumber; MyNodeData.updatedAtTimestamp]
          = [PosInf; PosInf; NegInf; NegInf].
Proof.
  split; [reflexivity|]. split; [reflexivity|].
  eexists. split; vm_compute; reflexivity.
Qed.

(** C3, as stated, fails: on a snapshot without head-block metadata the
    mapper raises a [TypeError] and returns nothing. *)
Lemma C3_headless_snapshot_raises :
  Query._meta Sample.headlessSnapshot = None
  /\ @dataMapper Sample.runtime (Fin 1) Sample.headlessSnapshot = Throw TypeError
  /\ ~ exists r, @dataMapper Sample.runtime (Fin 1) Sample.headlessSnapshot = Ok r.
Proof.
  split; [reflexivity|].
  assert (H : @dataMapper Sample.runtime (Fin 1) Sample.headlessSnapshot
              = Throw TypeError) by (vm_compute; reflexivity).
  split; [exact H|]. intros [r Hr]. rewrite H in Hr. discriminate.
Qed.

(** C3, amended. On a snapshot without head-block metadata the mapper
    returns no result: it raises, and what it raises is a [TypeError] once
    the node and edge builders have returned. And [latestBlock] is never
    left out of a result: whenever the mapper returns, the metadata was
    there and [latestBlock] holds its block number and timestamp. *)
Theorem C3_missing_meta_raises :
  forall {rt : Runtime} (chain : number) (data : Query.t),
    (Query._meta data = None ->
     (exists e, dataMapper chain data = Throw e)
     /\ (forall nodes edges,
           mapNodes chain data = Ok nodes -> mapEdges data = Ok edges ->
           dataMapper chain data = Throw TypeError))
    /\ (forall r,
          dataMapper chain data = Ok r ->
          exists meta,
            Query._meta data = Some meta
            /\ MyMappedData.latestBlock r
               = Some {| LatestBlock.number := Number (Block.number (Meta.block meta));
                         LatestBlock.timestamp :=
                           fromUnixTime (Block.timestamp (Meta.block meta)) |}).
Proof.
  intros rt chain data. split.
  - intros Hmeta. unfold dataMapper. rewrite Hmeta. split.
    + destruct (mapNodes chain data); simpl; [|eauto].
      destruct (mapEdges data); simpl; eauto.
    + intros nodes edges -> ->. reflexivity.
  - intros r H. exact (proj2 (proj2 (dataMapper_inv _ _ _ H))).
Qed.

(* ================================================================== *)
(** * The properties at work on the sample snapshots *)
(* ================================================================== *)

Lemma isHexDigit_not_dash (c : ascii) :
  Sample.isHexDigit c = true -> negb (Ascii.eqb c "-") = true.
Proof.
  intros H. destruct (Ascii.eqb_spec c "-") as [->|]; [|reflexivity].
  vm_compute in H. discriminate.
Qed.

Lemma hex_dashFree (s : string) :
  forallb Sample.isHexDigit (list_ascii_of_string s) = true -> dashFree s = true.
Proof.
  induction s as [|c s IH]; simpl; [reflexivity|].
  rewrite !andb_true_iff. intros [Hc Hs]. split; auto using isHexDigit_not_dash.
Qed.

(** The sample address check, like the real one, lets no ["-"] through. *)
Lemma Sample_getAddress_dashFree (s a : string) :
  @getAddress Sample.runtime s = Ok a -> dashFree s = true.
Proof.
  simpl. unfold Sample.getAddress.
  destruct (Sample.isAddress s) eqn:E; [|discriminate]. intros _.
  destruct s as [|c0 [|c1 hex]]; try discriminate.
  unfold Sample.isAddress in E. rewrite !andb_true_iff in E.
  destruct E as [[[H0 H1] _] Hhex].
  apply Ascii.eqb_eq in H0, H1. subst c0 c1. simpl.
  now apply hex_dashFree.
Qed.

Lemma C1_witness :
  exists c,
    @edgeFromPoolMember Sample.runtime Sample.member50 = Ok c
    /\ EdgeData.flowRate (PartialEdge.data c) = Z.quot (1000 * 200) 50
    /\ (forall ms, @edgesFromPoolMembers Sample.runtime Sample.membershipSnapshot = Ok ms ->
                   In c ms)
    /\ (50 = 50 -> 200 = 200 -> 1000 = 1000 ->
        EdgeData.flowRate (PartialEdge.data c) = 4000).
Proof.
  apply (@C1_member_edge_flow_rate Sample.runtime Sample.membershipSnapshot
           Sample.member50 50 1000 200).
  - left. simpl. auto.
  - reflexivity.
  - lia.
  - reflexivity.
  - reflexivity.
Defined.

Lemma C3_witness :
  (Query._meta Sample.headlessSnapshot = None
   /\ exists e, @dataMapper Sample.runtime (Fin 1) Sample.headlessSnapshot = Throw e)
  /\ exists r meta,
       @dataMapper Sample.runtime (Fin 1) Sample.twoWaySnapshot = Ok r
       /\ Query._meta Sample.twoWaySnapshot = Some meta
       /\ MyMappedData.latestBlock r
          = Some {| LatestBlock.number :=
                      @Number Sample.runtime (Block.number (Meta.block meta));
                    LatestBlock.timestamp :=
                      @fromUnixTime Sample.runtime
                        (Block.timestamp (Meta.block meta)) |}.
Proof.
  split.
  - split; [reflexivity|].
    apply (proj1 (@C3_missing_meta_raises Sample.runtime (Fin 1)
                    Sample.headlessSnapshot)).
    reflexivity.
  - destruct (@dataMapper Sample.runtime (Fin 1) Sample.twoWaySnapshot)
      as [r|e] eqn:E; [|vm_compute in E; discriminate].
    destruct (proj2 (@C3_missing_meta_raises Sample.runtime (Fin 1)
                       Sample.twoWaySnapshot) r E) as (meta & Hmeta & Hlb).
    exists r, meta. split; [reflexivity|]. split; [exact Hmeta|exact Hlb].
Defined.

Lemma C4_witness :
  exists nodes,
    @mapNodes Sample.runtime (Fin 1) Sample.barePoolSnapshot = Ok nodes
    /\ In (Sample.selectedPool Sample.poolC [] [])
          (Query.selectedPools Sample.barePoolSnapshot)
    /\ ~ In Sample.poolC (map MyNode.id nodes).
Proof.
  exists []. split; [reflexivity|]. split; [simpl; auto|].
  apply (proj1 (@C4_selected_pools_emit_no_node Sample.runtime (Fin 1)
                  Sample.barePoolSnapshot [] eq_refl)
               (Sample.selectedPool Sample.poolC [] [])).
  - simpl. auto.
  - simpl. tauto.
Defined.

Lemma C5_witness :
  exists redundant edges e1 e2,
    @edgesButRedundant Sample.runtime Sample.mixedSnapshot = Ok redundant
    /\ @mapEdges Sample.runtime Sample.mixedSnapshot = Ok edges
    /\ In e1 edges
    /\ MyEdge.id e1 = edgeId Sample.tokenD Sample.alice Sample.bob
    /\ MyEdgeData.flowRate (MyEdge.data e1) = 100 + 1
    /\ In e2 edges
    /\ MyEdge.id e2 = edgeId Sample.tokenD Sample.bob Sample.poolC
    /\ MyEdgeData.flowRate (MyEdge.data e2) = 5 + 7.
Proof.
  destruct (@edgesButRedundant Sample.runtime Sample.mixedSnapshot)
    as [redundant|e] eqn:E; [|vm_compute in E; discriminate].
  assert (Hc : exists c1 c2,
             In c1 redundant
             /\ PartialEdge.id c1 = edgeId Sample.tokenD Sample.alice Sample.bob
             /\ sumZ (map (fun c => EdgeData.flowRate (PartialEdge.data c))
                          (sharingId (PartialEdge.id c1) redundant)) = 100 + 1
             /\ In c2 redundant
             /\ PartialEdge.id c2 = edgeId Sample.tokenD Sample.bob Sample.poolC
             /\ sumZ (map (fun c => EdgeData.flowRate (PartialEdge.data c))
                          (sharingId (PartialEdge.id c2) redundant)) = 5 + 7).
  { vm_compute in E. injection E as <-. eexists _, _.
    split; [do 2 right; left; reflexivity|].
    split; [vm_compute; reflexivity|]. split; [vm_compute; reflexivity|].
    split; [do 4 right; left; reflexivity|].
    split; vm_compute; reflexivity. }
  destruct Hc as (c1 & c2 & Hc1 & Hid1 & Hsum1 & Hc2 & Hid2 & Hsum2).
  destruct (@C5_edge_flow_conservation Sample.runtime Sample.mixedSnapshot
              redundant E) as (edges & He & _ & _ & Hcover).
  destruct (Hcover c1 Hc1) as (e1 & Hin1 & Hide1 & Hfl1).
  destruct (Hcover c2 Hc2) as (e2 & Hin2 & Hide2 & Hfl2).
  exists redundant, edges, e1, e2.
  split; [reflexivity|]. split; [exact He|].
  split; [exact Hin1|]. split; [congruence|]. split; [congruence|].
  split; [exact Hin2|]. split; congruence.
Defined.

Lemma C6_witness :
  exists r,
    @dataMapper Sample.runtime (Fin 1) Sample.mixedSnapshot = Ok r
    /\ NoDup (map MyEdge.id (MyMappedData.edges r))
    /\ forall e, In e (MyMappedData.edges r) ->
         0 <= edgeIndex e < edgeLength e
         /\ edgeLength e = length_of (filter (samePairb e) (MyMappedData.edges r))
         /\ forall e', In e' (MyMappedData.edges r) -> samePairb e e' = true ->
                       edgeIndex e = edgeIndex e' -> e = e'.
Proof.
  destruct (@dataMapper Sample.runtime (Fin 1) Sample.mixedSnapshot)
    as [r|e] eqn:E; [|vm_compute in E; discriminate].
  exists r. split; [reflexivity|].
  exact (proj1 C6_parallel_edge_metadata Sample.runtime Sample_getAddress_dashFree
               (Fin 1) Sample.mixedSnapshot r E).
Defined.

Lemma C7_witness :
  exists nodes,
    @mapNodes Sample.runtime (Fin 1) Sample.mixedSnapshot = Ok nodes
    /\ NoDup (map MyNode.id nodes)
    /\ forall a, In a (map MyNode.id nodes)
                 <-> In a (relatedIds Sample.mixedSnapshot).
Proof.
  destruct (@mapNodes Sample.runtime (Fin 1) Sample.mixedSnapshot)
    as [nodes|e] eqn:E; [|vm_compute in E; discriminate].
  exists nodes. split; [reflexivity|].
  exact (@C7_node_uniqueness Sample.runtime (Fin 1) Sample.mixedSnapshot nodes E).
Defined.

Lemma C8_witness :
  exists nodes n,
    @mapNodes Sample.runtime (Fin 1) Sample.mixedSnapshot = Ok nodes
    /\ In n nodes
    /\ MyNode.id n = Sample.bob
    /\ MyNodeData.isSelected (MyNode.data n) = Some true.
Proof.
  destruct (@mapNodes Sample.runtime (Fin 1) Sample.mixedSnapshot)
    as [nodes|e] eqn:E; [|vm_compute in E; discriminate].
  assert (Hn : exists n, In n nodes /\ MyNode.id n = Sample.bob).
  { vm_compute in E. injection E as <-. eexists. split; [left; reflexivity|reflexivity]. }
  destruct Hn as [n [Hin Hid]]. exists nodes, n.
  split; [reflexivity|]. split; [exact Hin|]. split; [exact Hid|].
  apply (@C8_node_flag_monotonicity Sample.runtime (Fin 1) Sample.mixedSnapshot nodes
           (@nodeFromAccount Sample.runtime (Sample.selectedAccount Sample.bob []))
           n E).
  - left. reflexivity.
  - exact Hin.
  - exact Hid.
  - reflexivity.
Defined.

Lemma C9_witness :
  @BigInt Sample.runtime (PoolRef.flowRate Sample.brokenPool) = Throw SyntaxError
  /\ exists c, @edgeFromPoolMember Sample.runtime Sample.idleMember = Ok c
               /\ EdgeData.flowRate (PartialEdge.data c) = 0.
Proof.
  split; [reflexivity|].
  apply (@C9_zero_unit_guard Sample.runtime Sample.idleMember). reflexivity.
Defined.

Lemma C10_witness :
  exists nodes edges,
    @mapNodes Sample.runtime (Fin 1) Sample.mixedSnapshot = Ok nodes
    /\ @mapEdges Sample.runtime Sample.mixedSnapshot = Ok edges
    /\ edges <> []
    /\ forall e, In e edges ->
         In (MyEdge.source e) (map MyNode.id nodes)
         /\ In (MyEdge.target e) (map MyNode.id nodes).
Proof.
  destruct (@mapNodes Sample.runtime (Fin 1) Sample.mixedSnapshot)
    as [nodes|e] eqn:En; [|vm_compute in En; discriminate].
  destruct (@mapEdges Sample.runtime Sample.mixedSnapshot)
    as [edges|e] eqn:Ee; [|vm_compute in Ee; discriminate].
  exists nodes, edges. split; [reflexivity|]. split; [reflexivity|]. split.
  - intros ->. vm_compute in Ee. discriminate.
  - exact (proj1 (@C10_no_dangling_endpoints Sample.runtime (Fin 1)
                    Sample.mixedSnapshot nodes edges En Ee)).
Defined.

(* ================================================================== *)
(** * Further facts: minima and maxima of numbers *)
(* ================================================================== *)

Lemma num_leb_refl (a : number) : a <> NaN -> num_leb a a = true.
Proof.
  destruct a; simpl; try congruence; intros _. apply Z.leb_refl.
Qed.

Lemma num_leb_trans (a b c : number) :
  num_leb a b = true -> num_leb b c = true -> num_leb a c = true.
Proof.
  destruct a, b, c; simpl; try congruence.
  rewrite !Z.leb_le. lia.
Qed.

Lemma min2_cases (a b : number) : min2 a b = a \/ min2 a b = b.
Proof.
  destruct a, b; simpl; auto.
  destruct (Z.min_spec z z0) as [[_ ->]|[_ ->]]; auto.
Qed.

Lemma max2_cases (a b : number) : max2 a b = a \/ max2 a b = b.
Proof.
  destruct a, b; simpl; auto.
  destruct (Z.max_spec z z0) as [[_ ->]|[_ ->]]; auto.
Qed.

Lemma min2_le (a b : number) :
  a <> NaN -> b <> NaN ->
  num_leb (min2 a b) a = true /\ num_leb (min2 a b) b = true.
Proof.
  intros Ha Hb. destruct a, b; simpl; try congruence; try (split; reflexivity);
    rewrite ?Z.leb_le; split; (reflexivity || lia).
Qed.

Lemma max2_ge (a b : number) :
  a <> NaN -> b <> NaN ->
  num_leb a (max2 a b) = true /\ num_leb b (max2 a b) = true.
Proof.
  intros Ha Hb. destruct a, b; simpl; try congruence; try (split; reflexivity);
    rewrite ?Z.leb_le; split; (reflexivity || lia).
Qed.

Lemma num_leb_not_NaN (a b : number) :
  num_leb a b = true -> a <> NaN /\ b <> NaN.
Proof.
  destruct a, b; simpl; split; congruence.
Qed.

Lemma fold_min2_bound (l : list number) (a : number) :
  a <> NaN -> (forall y, In y l -> y <> NaN) ->
  num_leb (fold_left min2 l a) a = true
  /\ forall y, In y l -> num_leb (fold_left min2 l a) y = true.
Proof.
  revert a. induction l as [|x l IH]; intros a Ha Hl; simpl.
  - split; [now apply num_leb_refl|contradiction].
  - assert (Hx : x <> NaN) by (apply Hl; now left).
    destruct (min2_le a x Ha Hx) as [Hma Hmx].
    destruct (IH (min2 a x)) as [H1 H2].
    + now apply num_leb_not_NaN in Hma.
    + intros y Hy. apply Hl. now right.
    + split; [eapply num_leb_trans; eassumption|].
      intros y [<-|Hy]; [eapply num_leb_trans; eassumption|auto].
Qed.

Lemma fold_max2_bound (l : list number) (a : number) :
  a <> NaN -> (forall y, In y l -> y <> NaN) ->
  num_leb a (fold_left max2 l a) = true
  /\ forall y, In y l -> num_leb y (fold_left max2 l a) = true.
Proof.
  revert a. induction l as [|x l IH]; intros a Ha Hl; simpl.
  - split; [now apply num_leb_refl|contradiction].
  - assert (Hx : x <> NaN) by (apply Hl; now left).
    destruct (max2_ge a x Ha Hx) as [Hma Hmx].
    destruct (IH (max2 a x)) as [H1 H2].
    + now apply num_leb_not_NaN in Hma.
    + intros y Hy. apply Hl. now right.
    + split; [eapply num_leb_trans; eassumption|].
      intros y [<-|Hy]; [eapply num_leb_trans; eassumption|auto].
Qed.

Lemma fold_min2_attained (l : list number) (a : number) :
  fold_left min2 l a = a \/ In (fold_left min2 l a) l.
Proof.
  revert a. induction l as [|x l IH]; intros a; simpl; [auto|].
  destruct (IH (min2 a x)) as [H|H]; [|auto].
  rewrite H. destruct (min2_cases a x) as [->| ->]; auto.
Qed.

Lemma fold_max2_attained (l : list number) (a : number) :
  fold_left max2 l a = a \/ In (fold_left max2 l a) l.
Proof.
  revert a. induction l as [|x l IH]; intros a; simpl; [auto|].
  destruct (IH (max2 a x)) as [H|H]; [|auto].
  rewrite H. destruct (max2_cases a x) as [->| ->]; auto.
Qed.

(** [Math.min] of numbers that are not [NaN] is below each of them, and is
    one of them when there is one. *)
Lemma Math_min_spec (l : list number) :
  (forall y, In y l -> y <> NaN) ->
  (forall y, In y l -> num_leb (Math_min l) y = true)
  /\ (l <> [] -> In (Math_min l) l).
Proof.
  intros Hl. unfold Math_min.
  destruct (fold_min2_bound l PosInf) as [_ Hb]; [discriminate|assumption|].
  split; [exact Hb|]. intros Hne.
  destruct (fold_min2_attained l PosInf) as [H|H]; [|assumption].
  destruct l as [|y l]; [congruence|].
  specialize (Hb y (or_introl eq_refl)). rewrite H in *.
  destruct y; simpl in Hb; try discriminate. now left.
Qed.

Lemma Math_max_spec (l : list number) :
  (forall y, In y l -> y <> NaN) ->
  (forall y, In y l -> num_leb y (Math_max l) = true)
  /\ (l <> [] -> In (Math_max l) l).
Proof.
  intros Hl. unfold Math_max.
  destruct (fold_max2_bound l NegInf) as [_ Hb]; [discriminate|assumption|].
  split; [exact Hb|]. intros Hne.
  destruct (fold_max2_attained l NegInf) as [H|H]; [|assumption].
  destruct l as [|y l]; [congruence|].
  specialize (Hb y (or_introl eq_refl)). rewrite H in *.
  destruct y; simpl in Hb; try discriminate. now left.
Qed.

(* ================================================================== *)
(** * Further facts about the node builder *)
(* ================================================================== *)

Section MoreNodeFacts.

Context {rt : Runtime}.

(** What [mergeNodes] returns: the candidate itself for a group of one,
    and for a larger group the first candidate's id with every data field
    recomputed from the whole group. *)
Lemma mergeNodes_cases (g : list PartialNode.t) (m : PartialNode.t) :
  mergeNodes g = Ok m ->
  g = [m]
  \/ (2 <= List.length g)%nat
     /\ let datas := map PartialNode.data g in
        PartialNode.data m =
        {| NodeData.isPool :=
             Some (existsb (fun d => truthy (NodeData.isPool d)) datas);
           NodeData.isSuperApp :=
             Some (existsb (fun d => truthy (NodeData.isSuperApp d)) datas);
           NodeData.isSelected :=
             Some (existsb (fun d => truthy (NodeData.isSelected d)) datas);
           NodeData.createdAtBlockNumber :=
             Math_min (map NodeData.createdAtBlockNumber datas);
           NodeData.createdAtTimestamp :=
             Math_min (map NodeData.createdAtTimestamp datas);
           NodeData.updatedAtBlockNumber :=
             Math_max (map NodeData.updatedAtBlockNumber datas);
           NodeData.updatedAtTimestamp :=
             Math_max (map NodeData.updatedAtTimestamp datas) |}.
Proof.
  destruct g as [|root [|c g]]; [discriminate| |].
  - intros [= <-]. now left.
  - intros [= <-]. right. split; [simpl; lia|].
    cbn [PartialNode.data]. cbv zeta. f_equal.
    change (map PartialNode.data (root :: c :: g))
      with (PartialNode.data root :: PartialNode.data c :: map PartialNode.data g).
    rewrite fold_left_orb. simpl. now rewrite orb_assoc.
Qed.

Lemma fullNode_cases (chain : number) (m : PartialNode.t) (n : MyNode.t) :
  fullNode chain m = Ok n ->
  exists address,
    getAddress (PartialNode.id m) = Ok address
    /\ n = {| MyNode.id := PartialNode.id m;
              MyNode.data := {|
                MyNodeData.isPool := NodeData.isPool (PartialNode.data m);
                MyNodeData.isSuperApp := NodeData.isSuperApp (PartialNode.data m);
                MyNodeData.isSelected := NodeData.isSelected (PartialNode.data m);
                MyNodeData.createdAtBlockNumber :=
                  NodeData.createdAtBlockNumber (PartialNode.data m);
                MyNodeData.createdAtTimestamp :=
                  NodeData.createdAtTimestamp (PartialNode.data m);
                MyNodeData.updatedAtBlockNumber :=
                  NodeData.updatedAtBlockNumber (PartialNode.data m);
                MyNodeData.updatedAtTimestamp :=
                  NodeData.updatedAtTimestamp (PartialNode.data m);
                MyNodeData.chain := chain;
                MyNodeData.address := address;
                MyNodeData.label := shortenHex address |};
              MyNode.type := "custom";
              MyNode.position := {| Position.x := 0; Position.y := 0 |} |}.
Proof.
  unfold fullNode.
  destruct (getAddress (PartialNode.id m)) as [address|]; simpl; [|discriminate].
  intros [= <-]. eauto.
Qed.

End MoreNodeFacts.

(** X1. The merged node is no younger and no staler than any of its
    sources: its creation block and timestamp are at most, and its update
    block and timestamp at least, those of every candidate carrying its
    id, provided none of these candidates has a [NaN] there. *)
Theorem X1_merged_stamps_bound :
  forall {rt : Runtime} (chain : number) (data : Query.t) (nodes : list MyNode.t)
         (n : MyNode.t) (c : PartialNode.t),
    mapNodes chain data = Ok nodes ->
    In n nodes ->
    In c (nodesButRedundant data) ->
    PartialNode.id c = MyNode.id n ->
    (forall c', In c' (nodesButRedundant data) ->
                PartialNode.id c' = MyNode.id n ->
                stampsComparable (PartialNode.data c')) ->
    num_leb (MyNodeData.createdAtBlockNumber (MyNode.data n))
            (NodeData.createdAtBlockNumber (PartialNode.data c)) = true
    /\ num_leb (MyNodeData.createdAtTimestamp (MyNode.data n))
               (NodeData.createdAtTimestamp (PartialNode.data c)) = true
    /\ num_leb (NodeData.updatedAtBlockNumber (PartialNode.data c))
               (MyNodeData.updatedAtBlockNumber (MyNode.data n)) = true
    /\ num_leb (NodeData.updatedAtTimestamp (PartialNode.data c))
               (MyNodeData.updatedAtTimestamp (MyNode.data n)) = true.
Proof.
  intros rt chain data nodes n c H Hn Hc Hid Hcmp.
  destruct (mapNodes_group _ _ _ _ H Hn) as (m & Hm & Hf).
  destruct (fullNode_cases _ _ _ Hf) as (address & _ & Hrec).
  rewrite Hrec at 1 2 3 4. cbn [MyNode.data MyNodeData.createdAtBlockNumber
    MyNodeData.createdAtTimestamp MyNodeData.updatedAtBlockNumber
    MyNodeData.updatedAtTimestamp]. clear Hrec.
  assert (Hcg : In c (keyed PartialNode.id (MyNode.id n) (nodesButRedundant data)))
    by (apply In_keyed; auto).
  assert (Hall : forall c', In c' (keyed PartialNode.id (MyNode.id n)
                                         (nodesButRedundant data)) ->
                            stampsComparable (PartialNode.data c')).
  { intros c' Hc'. apply In_keyed in Hc'. apply Hcmp; tauto. }
  destruct (mergeNodes_cases _ _ Hm) as [Hone|[_ Hdata]].
  - rewrite Hone in Hcg. destruct Hcg as [<-|[]].
    destruct (Hall m) as (H1 & H2 & H3 & H4); [rewrite Hone; now left|].
    repeat split; now apply num_leb_refl.
  - cbv zeta in Hdata. rewrite Hdata. simpl.
    set (g := keyed PartialNode.id (MyNode.id n) (nodesButRedundant data)) in *.
    repeat split.
    + apply Math_min_spec.
      * intros y Hy. apply in_map_iff in Hy. destruct Hy as [d [<- Hd]].
        apply in_map_iff in Hd. destruct Hd as [c' [<- Hc']].
        now destruct (Hall c' Hc').
      * apply in_map, in_map. exact Hcg.
    + apply Math_min_spec.
      * intros y Hy. apply in_map_iff in Hy. destruct Hy as [d [<- Hd]].
        apply in_map_iff in Hd. destruct Hd as [c' [<- Hc']].
        now destruct (Hall c' Hc') as (_ & ? & _).
      * apply in_map, in_map. exact Hcg.
    + apply Math_max_spec.
      * intros y Hy. apply in_map_iff in Hy. destruct Hy as [d [<- Hd]].
        apply in_map_iff in Hd. destruct Hd as [c' [<- Hc']].
        now destruct (Hall c' Hc') as (_ & _ & ? & _).
      * apply in_map, in_map. exact Hcg.
    + apply Math_max_spec.
      * intros y Hy. apply in_map_iff in Hy. destruct Hy as [d [<- Hd]].
        apply in_map_iff in Hd. destruct Hd as [c' [<- Hc']].
        now destruct (Hall c' Hc') as (_ & _ & _ & ?).
      * apply in_map, in_map. exact Hcg.
Qed.

(** X2. For a selected account with at least one per-token snapshot, none
    of which converts to [NaN], the candidate's creation block is the
    least of the snapshots' creation blocks and its update block the
    greatest of their update blocks, and likewise for the timestamps: each
    is reached by some snapshot, and the account's own four fields play no
    part. *)
Theorem X2_account_stamps_from_snapshots :
  forall {rt : Runtime} (x : Account.t),
    Account.accountTokenSnapshots x <> [] ->
    (forall y, In y (Account.accountTokenSnapshots x) ->
       Number (AccountTokenSnapshot.createdAtBlockNumber y) <> NaN
       /\ Number (AccountTokenSnapshot.createdAtTimestamp y) <> NaN
       /\ Number (AccountTokenSnapshot.updatedAtBlockNumber y) <> NaN
       /\ Number (AccountTokenSnapshot.updatedAtTimestamp y) <> NaN) ->
    let d := PartialNode.data (nodeFromAccount x) in
    let snaps := Account.accountTokenSnapshots x in
    (forall y, In y snaps ->
       num_leb (NodeData.createdAtBlockNumber d)
               (Number (AccountTokenSnapshot.createdAtBlockNumber y)) = true
       /\ num_leb (NodeData.createdAtTimestamp d)
                  (Number (AccountTokenSnapshot.createdAtTimestamp y)) = true
       /\ num_leb (Number (AccountTokenSnapshot.updatedAtBlockNumber y))
                  (NodeData.updatedAtBlockNumber d) = true
       /\ num_leb (Number (AccountTokenSnapshot.updatedAtTimestamp y))
                  (NodeData.updatedAtTimestamp d) = true)
    /\ (exists y, In y snaps /\ NodeData.createdAtBlockNumber d
                               = Number (AccountTokenSnapshot.createdAtBlockNumber y))
    /\ (exists y, In y snaps /\ NodeData.createdAtTimestamp d
                               = Number (AccountTokenSnapshot.createdAtTimestamp y))
    /\ (exists y, In y snaps /\ NodeData.updatedAtBlockNumber d
                               = Number (AccountTokenSnapshot.updatedAtBlockNumber y))
    /\ (exists y, In y snaps /\ NodeData.updatedAtTimestamp d
                               = Number (AccountTokenSnapshot.updatedAtTimestamp y)).
Proof.
  intros rt x Hne Hnan d snaps. subst d snaps. unfold nodeFromAccount. simpl.
  set (snaps := Account.accountTokenSnapshots x) in *.
  assert (Hmap : forall (f : AccountTokenSnapshot.t -> jsval),
             (forall y, In y snaps -> Number (f y) <> NaN) ->
             (forall v, In v (map (fun y => Number (f y)) snaps) -> v <> NaN)
             /\ map (fun y => Number (f y)) snaps <> []).
  { intros f Hf. split.
    - intros v Hv. apply in_map_iff in Hv. destruct Hv as [y [<- Hy]]. auto.
    - destruct snaps; [congruence|discriminate]. }
  destruct (Hmap AccountTokenSnapshot.createdAtBlockNumber) as [N1 E1];
    [intros y Hy; now destruct (Hnan y Hy)|].
  destruct (Hmap AccountTokenSnapshot.createdAtTimestamp) as [N2 E2];
    [intros y Hy; now destruct (Hnan y Hy) as (_ & ? & _)|].
  destruct (Hmap AccountTokenSnapshot.updatedAtBlockNumber) as [N3 E3];
    [intros y Hy; now destruct (Hnan y Hy) as (_ & _ & ? & _)|].
  destruct (Hmap AccountTokenSnapshot.updatedAtTimestamp) as [N4 E4];
    [intros y Hy; now destruct (Hnan y Hy) as (_ & _ & _ & ?)|].
  destruct (Math_min_spec _ N1) as [B1 A1].
  destruct (Math_min_spec _ N2) as [B2 A2].
  destruct (Math_max_spec _ N3) as [B3 A3].
  destruct (Math_max_spec _ N4) as [B4 A4].
  split; [|repeat split].
  - intros y Hy. repeat split;
      [apply B1|apply B2|apply B3|apply B4];
      apply (in_map (fun y => Number (_ y))); exact Hy.
  - specialize (A1 E1). apply in_map_iff in A1. destruct A1 as [y [? ?]]. eauto.
  - specialize (A2 E2). apply in_map_iff in A2. destruct A2 as [y [? ?]]. eauto.
  - specialize (A3 E3). apply in_map_iff in A3. destruct A3 as [y [? ?]]. eauto.
  - specialize (A4 E4). apply in_map_iff in A4. destruct A4 as [y [? ?]]. eauto.
Qed.

(** X7. On an output node each of [isPool], [isSuperApp] and [isSelected]
    is true exactly when some candidate carrying the node's id sets it to
    true: the merge neither loses a mark nor invents one. *)
Theorem X7_flags_exact :
  forall {rt : Runtime} (chain : number) (data : Query.t) (nodes : list MyNode.t)
         (n : MyNode.t),
    mapNodes chain data = Ok nodes ->
    In n nodes ->
    (MyNodeData.isPool (MyNode.data n) = Some true <->
     exists c, In c (nodesButRedundant data) /\ PartialNode.id c = MyNode.id n
               /\ NodeData.isPool (PartialNode.data c) = Some true)
    /\ (MyNodeData.isSuperApp (MyNode.data n) = Some true <->
        exists c, In c (nodesButRedundant data) /\ PartialNode.id c = MyNode.id n
                  /\ NodeData.isSuperApp (PartialNode.data c) = Some true)
    /\ (MyNodeData.isSelected (MyNode.data n) = Some true <->
        exists c, In c (nodesButRedundant data) /\ PartialNode.id c = MyNode.id n
                  /\ NodeData.isSelected (PartialNode.data c) = Some true).
Proof.
  intros rt chain data nodes n H Hn.
  destruct (mapNodes_group _ _ _ _ H Hn) as (m & Hm & Hf).
  destruct (fullNode_inv _ _ _ Hf) as (_ & -> & -> & ->).
  set (g := keyed PartialNode.id (MyNode.id n) (nodesButRedundant data)) in *.
  assert (Hdown : forall fl : NodeData.t -> option bool,
             (fl (PartialNode.data m) = Some true ->
              exists c, In c g /\ fl (PartialNode.data c) = Some true) ->
             fl (PartialNode.data m) = Some true ->
             exists c, In c (nodesButRedundant data)
                       /\ PartialNode.id c = MyNode.id n
                       /\ fl (PartialNode.data c) = Some true).
  { intros fl Hfl Ht. destruct (Hfl Ht) as (c & Hc & Hcf).
    apply In_keyed in Hc. exists c. tauto. }
  assert (Hgen : forall fl : NodeData.t -> option bool,
             (g = [m] \/ fl (PartialNode.data m)
                         = Some (existsb (fun d => truthy (fl d))
                                         (map PartialNode.data g))) ->
             fl (PartialNode.data m) = Some true ->
             exists c, In c g /\ fl (PartialNode.data c) = Some true).
  { intros fl [Hone|Hmany] Ht.
    - exists m. split; [rewrite Hone; now left|assumption].
    - apply (proj1 (existsb_truthy fl g)). congruence. }
  assert (Hcases : g = [m]
                   \/ NodeData.isPool (PartialNode.data m)
                      = Some (existsb (fun d => truthy (NodeData.isPool d))
                                      (map PartialNode.data g))
                      /\ NodeData.isSuperApp (PartialNode.data m)
                         = Some (existsb (fun d => truthy (NodeData.isSuperApp d))
                                         (map PartialNode.data g))
                      /\ NodeData.isSelected (PartialNode.data m)
                         = Some (existsb (fun d => truthy (NodeData.isSelected d))
                                         (map PartialNode.data g))).
  { destruct (mergeNodes_cases _ _ Hm) as [Hone|[_ Hdata]]; [now left|right].
    cbv zeta in Hdata. rewrite Hdata. simpl. auto. }
  assert (Hup : forall c, In c (nodesButRedundant data) ->
                          PartialNode.id c = MyNode.id n -> In c g)
    by (intros c Hc Hid; apply In_keyed; auto).
  repeat split.
  - apply Hdown, Hgen. tauto.
  - intros (c & Hc & Hid & Hfl).
    now apply (proj1 (mergeNodes_flags_up _ _ c Hm (Hup c Hc Hid))).
  - apply Hdown, Hgen. tauto.
  - intros (c & Hc & Hid & Hfl).
    now apply (proj1 (proj2 (mergeNodes_flags_up _ _ c Hm (Hup c Hc Hid)))).
  - apply Hdown, Hgen. tauto.
  - intros (c & Hc & Hid & Hfl).
    now apply (proj2 (proj2 (mergeNodes_flags_up _ _ c Hm (Hup c Hc Hid)))).
Qed.

(** X12. Every output node is finalized the same way: its address is what
    [getAddress] returns on its id, its label is [shortenHex] of that
    address, its chain is the one passed to the mapper, its type is
    ["custom"] and its position is the origin. *)
Theorem X12_node_finalization :
  forall {rt : Runtime} (chain : number) (data : Query.t) (nodes : list MyNode.t)
         (n : MyNode.t),
    mapNodes chain data = Ok nodes ->
    In n nodes ->
    getAddress (MyNode.id n) = Ok (MyNodeData.address (MyNode.data n))
    /\ MyNodeData.label (MyNode.data n)
       = shortenHex (MyNodeData.address (MyNode.data n))
    /\ MyNodeData.chain (MyNode.data n) = chain
    /\ MyNode.type n = "custom"
    /\ MyNode.position n = {| Position.x := 0; Position.y := 0 |}.
Proof.
  intros rt chain data nodes n H Hn.
  destruct (mapNodes_inv _ _ _ H) as (merged & _ & HF).
  destruct (Forall2_In_r _ _ _ _ HF Hn) as (m & _ & Hf).
  destruct (fullNode_cases _ _ _ Hf) as (address & Ha & ->). simpl. auto.
Qed.

(** X14. An id seen in a single candidate gives a node that carries this
    candidate's flags and stamps untouched, an unset flag staying unset;
    an id seen in two candidates or more gives a node whose three flags
    are all set to a boolean. *)
Theorem X14_single_source_kept :
  forall {rt : Runtime} (chain : number) (data : Query.t) (nodes : list MyNode.t)
         (n : MyNode.t),
    mapNodes chain data = Ok nodes ->
    In n nodes ->
    let group := keyed PartialNode.id (MyNode.id n) (nodesButRedundant data) in
    (forall c, group = [c] ->
       let d := PartialNode.data c in
       MyNodeData.isPool (MyNode.data n) = NodeData.isPool d
       /\ MyNodeData.isSuperApp (MyNode.data n) = NodeData.isSuperApp d
       /\ MyNodeData.isSelected (MyNode.data n) = NodeData.isSelected d
       /\ MyNodeData.createdAtBlockNumber (MyNode.data n)
          = NodeData.createdAtBlockNumber d
       /\ MyNodeData.createdAtTimestamp (MyNode.data n)
          = NodeData.createdAtTimestamp d
       /\ MyNodeData.updatedAtBlockNumber (MyNode.data n)
          = NodeData.updatedAtBlockNumber d
       /\ MyNodeData.updatedAtTimestamp (MyNode.data n)
          = NodeData.updatedAtTimestamp d)
    /\ ((2 <= List.length group)%nat ->
        MyNodeData.isPool (MyNode.data n) <> None
        /\ MyNodeData.isSuperApp (MyNode.data n) <> None
        /\ MyNodeData.isSelected (MyNode.data n) <> None).
Proof.
  intros rt chain data nodes n H Hn group.
  destruct (mapNodes_group _ _ _ _ H Hn) as (m & Hm & Hf). fold group in Hm.
  destruct (fullNode_cases _ _ _ Hf) as (address & _ & Hrec).
  assert (Hd : MyNodeData.isPool (MyNode.data n) = NodeData.isPool (PartialNode.data m)
               /\ MyNodeData.isSuperApp (MyNode.data n)
                  = NodeData.isSuperApp (PartialNode.data m)
               /\ MyNodeData.isSelected (MyNode.data n)
                  = NodeData.isSelected (PartialNode.data m)
               /\ MyNodeData.createdAtBlockNumber (MyNode.data n)
                  = NodeData.createdAtBlockNumber (PartialNode.data m)
               /\ MyNodeData.createdAtTimestamp (MyNode.data n)
                  = NodeData.createdAtTimestamp (PartialNode.data m)
               /\ MyNodeData.updatedAtBlockNumber (MyNode.data n)
                  = NodeData.updatedAtBlockNumber (PartialNode.data m)
               /\ MyNodeData.updatedAtTimestamp (MyNode.data n)
                  = NodeData.updatedAtTimestamp (PartialNode.data m))
    by (rewrite Hrec; simpl; tauto).
  clear Hrec. split.
  - intros c Hone d. subst d. rewrite Hone in Hm. simpl in Hm.
    injection Hm as <-. exact Hd.
  - intros Hlen. destruct Hd as (-> & -> & -> & _).
    destruct (mergeNodes_cases _ _ Hm) as [Hone|[_ Hdata]].
    + rewrite Hone in Hlen. simpl in Hlen. lia.
    + cbv zeta in Hdata. rewrite Hdata. simpl. repeat split; discriminate.
Qed.

(* ================================================================== *)
(** * Further facts: when the mapper returns *)
(* ================================================================== *)

Section SuccessFacts.

Context {rt : Runtime}.

Lemma mapM_Ok_iff {X Y : Type} (f : X -> result Y) (l : list X) :
  (exists l', mapM f l = Ok l') <-> forall x, In x l -> exists y, f x = Ok y.
Proof.
  split.
  - intros [l' H] x Hx. apply mapM_Forall2 in H.
    destruct (Forall2_In_l _ _ _ _ H Hx) as [y [_ Hy]]. eauto.
  - apply mapM_total.
Qed.

Lemma memberFlowRate_Ok_iff (x : PoolMember.t) :
  (exists q, memberFlowRate x = Ok q) <-> memberConvertible x.
Proof.
  unfold memberConvertible, convertible, memberFlowRate. split.
  - intros [q H].
    destruct (BigInt (PoolMember.units x)) as [u|] eqn:Hu; [|discriminate].
    exists u. split; [reflexivity|]. intros Hpos. simpl in H.
    destruct (Z.gtb_spec u 0); [|lia].
    destruct (BigInt (PoolRef.flowRate (PoolMember.pool x))) as [f|];
      [|discriminate]. simpl in H.
    destruct (BigInt (PoolRef.totalUnits (PoolMember.pool x))) as [t|];
      [|discriminate]. eauto.
  - intros (u & Hu & Hpos). rewrite Hu. simpl.
    destruct (Z.gtb_spec u 0) as [Hgt|Hle]; [|eauto].
    destruct (Hpos Hgt) as [[f ->] [t ->]]. simpl.
    unfold bigint_div. destruct (Z.eqb_spec u 0); [lia|eauto].
Qed.

Lemma edgeFromPoolMember_Ok_iff (x : PoolMember.t) :
  (exists c, edgeFromPoolMember x = Ok c) <-> memberConvertible x.
Proof.
  rewrite <- memberFlowRate_Ok_iff. unfold edgeFromPoolMember. split.
  - intros [c H]. destruct (memberFlowRate x); [eauto|discriminate].
  - intros [q ->]. simpl. eauto.
Qed.

Lemma edgeFromPoolDistributor_Ok_iff (x : PoolDistributor.t) :
  (exists c, edgeFromPoolDistributor x = Ok c)
  <-> convertible (PoolDistributor.flowRate x).
Proof.
  unfold convertible, edgeFromPoolDistributor. split.
  - intros [c H]. destruct (BigInt (PoolDistributor.flowRate x)); [eauto|discriminate].
  - intros [q ->]. simpl. eauto.
Qed.

Lemma edgeFromStream_Ok_iff (x : Stream.t) :
  (exists c, edgeFromStream x = Ok c) <-> convertible (Stream.currentFlowRate x).
Proof.
  unfold convertible, edgeFromStream. split.
  - intros [c H]. destruct (BigInt (Stream.currentFlowRate x)); [eauto|discriminate].
  - intros [q ->]. simpl. eauto.
Qed.

Lemma edgesButRedundant_Ok_iff (data : Query.t) :
  (exists redundant, edgesButRedundant data = Ok redundant) <->
  (forall x, In x (allPoolDistributors data) ->
             convertible (PoolDistributor.flowRate x))
  /\ (forall x, In x (allPoolMembers data) -> memberConvertible x)
  /\ (forall x, In x (Query.streams data) ->
                convertible (Stream.currentFlowRate x)).
Proof.
  split.
  - intros [redundant H].
    destruct (edgesButRedundant_inv _ _ H) as (ds & ms & ss & Hd & Hm & Hs & _).
    repeat split; intros x Hx.
    + apply edgeFromPoolDistributor_Ok_iff.
      exact (proj1 (mapM_Ok_iff _ _) (ex_intro _ ds Hd) x Hx).
    + apply edgeFromPoolMember_Ok_iff.
      exact (proj1 (mapM_Ok_iff _ _) (ex_intro _ ms Hm) x Hx).
    + apply edgeFromStream_Ok_iff.
      exact (proj1 (mapM_Ok_iff _ _) (ex_intro _ ss Hs) x Hx).
  - intros (Hd & Hm & Hs). unfold edgesButRedundant.
    destruct (proj2 (mapM_Ok_iff edgeFromPoolDistributor (allPoolDistributors data)))
      as [ds Hds].
    { intros x Hx. apply edgeFromPoolDistributor_Ok_iff. auto. }
    destruct (proj2 (mapM_Ok_iff edgeFromPoolMember (allPoolMembers data)))
      as [ms Hms].
    { intros x Hx. apply edgeFromPoolMember_Ok_iff. auto. }
    destruct (proj2 (mapM_Ok_iff edgeFromStream (Query.streams data)))
      as [ss Hss].
    { intros x Hx. apply edgeFromStream_Ok_iff. auto. }
    unfold edgesFromPoolDistributors, edgesFromPoolMembers, edgesFromStreams.
    rewrite Hds, Hms, Hss. simpl. eauto.
Qed.

Lemma mapEdges_Ok_iff (data : Query.t) :
  (exists edges, mapEdges data = Ok edges)
  <-> exists redundant, edgesButRedundant data = Ok redundant.
Proof.
  split.
  - intros [edges H]. destruct (mapEdges_inv _ _ H) as (redundant & _ & Hr & _).
    eauto.
  - intros [redundant H]. exact (mapEdges_total _ _ H).
Qed.

End SuccessFacts.

(** X3. The mapper returns no result on a malformed snapshot: whenever
    it returns, every id taking part in a relation passed [getAddress],
    every flow rate of a distributorship and of a stream converted with
    [BigInt], every membership had convertible units and, when these are
    positive, a pool with convertible flow rate and total units, and the
    head-block metadata was present. The edge builder by itself returns
    exactly when these conversions succeed. *)
Theorem X3_dataMapper_returns_only_if :
  forall {rt : Runtime} (chain : number) (data : Query.t),
    (forall r,
       dataMapper chain data = Ok r ->
       (forall a, In a (relatedIds data) -> exists c, getAddress a = Ok c)
       /\ (forall x, In x (allPoolDistributors data) ->
                     convertible (PoolDistributor.flowRate x))
       /\ (forall x, In x (allPoolMembers data) -> memberConvertible x)
       /\ (forall x, In x (Query.streams data) ->
                     convertible (Stream.currentFlowRate x))
       /\ Query._meta data <> None)
    /\ ((exists edges, mapEdges data = Ok edges) <->
        (forall x, In x (allPoolDistributors data) ->
                   convertible (PoolDistributor.flowRate x))
        /\ (forall x, In x (allPoolMembers data) -> memberConvertible x)
        /\ (forall x, In x (Query.streams data) ->
                      convertible (Stream.currentFlowRate x))).
Proof.
  intros rt chain data. split.
  - intros r H. destruct (dataMapper_inv _ _ _ H) as (Hn & He & meta & Hmeta & _).
    split; [intros a Ha; exact (mapNodes_addresses _ _ _ _ Hn Ha)|].
    assert (Hr : exists redundant, edgesButRedundant data = Ok redundant)
      by (apply mapEdges_Ok_iff; eauto).
    apply edgesButRedundant_Ok_iff in Hr. destruct Hr as (Hd & Hm & Hs).
    repeat split; try assumption. congruence.
  - rewrite mapEdges_Ok_iff. apply edgesButRedundant_Ok_iff.
Qed.

(* ================================================================== *)
(** * Further facts about the edge builder *)
(* ================================================================== *)

Section MoreEdgeFacts.

Context {rt : Runtime}.

(** The candidate of a relation: its id is built from its own token and
    endpoints. *)
Lemma edgeFromPoolMember_id (x : PoolMember.t) (c : PartialEdge.t) :
  edgeFromPoolMember x = Ok c ->
  PartialEdge.id c
  = edgeId (Token.id (PoolRef.token (PoolMember.pool x)))
           (PoolRef.id (PoolMember.pool x)) (AccountRef.id (PoolMember.account x))
  /\ PartialEdge.id c
     = edgeId (EdgeToken.id (EdgeData.token (PartialEdge.data c)))
              (PartialEdge.source c) (PartialEdge.target c).
Proof.
  unfold edgeFromPoolMember. destruct (memberFlowRate x); simpl; [|discriminate].
  intros [= <-]. simpl. auto.
Qed.

Lemma edgeFromPoolDistributor_id (x : PoolDistributor.t) (c : PartialEdge.t) :
  edgeFromPoolDistributor x = Ok c ->
  PartialEdge.id c
  = edgeId (Token.id (PoolRef.token (PoolDistributor.pool x)))
           (AccountRef.id (PoolDistributor.account x))
           (PoolRef.id (PoolDistributor.pool x))
  /\ PartialEdge.id c
     = edgeId (EdgeToken.id (EdgeData.token (PartialEdge.data c)))
              (PartialEdge.source c) (PartialEdge.target c).
Proof.
  unfold edgeFromPoolDistributor.
  destruct (BigInt (PoolDistributor.flowRate x)); simpl; [|discriminate].
  intros [= <-]. simpl. auto.
Qed.

Lemma edgeFromStream_id (x : Stream.t) (c : PartialEdge.t) :
  edgeFromStream x = Ok c ->
  PartialEdge.id c
  = edgeId (Token.id (Stream.token x))
           (AccountRef.id (Stream.sender x)) (AccountRef.id (Stream.receiver x))
  /\ PartialEdge.id c
     = edgeId (EdgeToken.id (EdgeData.token (PartialEdge.data c)))
              (PartialEdge.source c) (PartialEdge.target c).
Proof.
  unfold edgeFromStream.
  destruct (BigInt (Stream.currentFlowRate x)); simpl; [|discriminate].
  intros [= <-]. simpl. auto.
Qed.

Lemma edgesButRedundant_id (data : Query.t) (redundant : list PartialEdge.t)
      (c : PartialEdge.t) :
  edgesButRedundant data = Ok redundant -> In c redundant ->
  PartialEdge.id c
  = edgeId (EdgeToken.id (EdgeData.token (PartialEdge.data c)))
           (PartialEdge.source c) (PartialEdge.target c).
Proof.
  intros H Hin.
  destruct (edgesButRedundant_inv _ _ H) as (ds & ms & ss & Hd & Hm & Hs & ->).
  rewrite !in_app_iff in Hin. destruct Hin as [Hin|[Hin|Hin]].
  - apply mapM_Forall2 in Hm.
    destruct (Forall2_In_r _ _ _ _ Hm Hin) as [x [_ Hc]].
    now apply edgeFromPoolMember_id in Hc.
  - apply mapM_Forall2 in Hs.
    destruct (Forall2_In_r _ _ _ _ Hs Hin) as [x [_ Hc]].
    now apply edgeFromStream_id in Hc.
  - apply mapM_Forall2 in Hd.
    destruct (Forall2_In_r _ _ _ _ Hd Hin) as [x [_ Hc]].
    now apply edgeFromPoolDistributor_id in Hc.
Qed.

(** The merge keeps the first candidate's id, endpoints and token. *)
Lemma mergeEdges_root (g : list PartialEdge.t) (n : PartialEdge.t) :
  mergeEdges g = Ok n ->
  exists root,
    In root g
    /\ PartialEdge.id n = PartialEdge.id root
    /\ PartialEdge.source n = PartialEdge.source root
    /\ PartialEdge.target n = PartialEdge.target root
    /\ EdgeData.token (PartialEdge.data n) = EdgeData.token (PartialEdge.data root).
Proof.
  destruct g as [|root [|c g]]; [discriminate| |]; intros [= <-]; exists root;
    simpl; auto.
Qed.

Lemma uniqEdges_id (data : Query.t) (redundant uniq : list PartialEdge.t)
      (u : PartialEdge.t) :
  edgesButRedundant data = Ok redundant ->
  uniqEdges redundant = Ok uniq -> In u uniq ->
  PartialEdge.id u
  = edgeId (EdgeToken.id (EdgeData.token (PartialEdge.data u)))
           (PartialEdge.source u) (PartialEdge.target u).
Proof.
  intros Hr Hu Hin.
  destruct (dedup_group PartialEdge.id mergeEdges mergeEdges_key _ _ _ Hu Hin)
    as [Hm _].
  destruct (mergeEdges_root _ _ Hm) as (root & Hroot & -> & -> & -> & ->).
  apply In_keyed in Hroot.
  exact (edgesButRedundant_id _ _ _ Hr (proj1 Hroot)).
Qed.

Lemma fullEdge_cases (o : object (list PartialEdge.t)) (x : PartialEdge.t)
      (e : MyEdge.t) :
  fullEdge o x = Ok e ->
  exists group,
    get o (pairKey x) = Some group
    /\ e = {| MyEdge.id := PartialEdge.id x;
              MyEdge.source := PartialEdge.source x;
              MyEdge.target := PartialEdge.target x;
              MyEdge.animated := true;
              MyEdge.type := "floating";
              MyEdge.data := {|
                MyEdgeData.token := EdgeData.token (PartialEdge.data x);
                MyEdgeData.flowRate := EdgeData.flowRate (PartialEdge.data x);
                MyEdgeData.something := {|
                  Something.length := length_of group;
                  Something.index := indexOf PartialEdge_eqb x group |} |} |}.
Proof.
  unfold fullEdge. destruct (get o (pairKey x)) as [group|]; [|discriminate].
  intros [= <-]. eauto.
Qed.

Lemma NoDup_map_In_inj {X Y : Type} (f : X -> Y) (l : list X) (a b : X) :
  NoDup (map f l) -> In a l -> In b l -> f a = f b -> a = b.
Proof.
  induction l as [|x l IH]; simpl; [contradiction|].
  intros Hnd Ha Hb Hf. inversion Hnd as [|? ? Hnotin Hnd']; subst.
  destruct Ha as [->|Ha], Hb as [->|Hb]; auto.
  - exfalso. apply Hnotin. rewrite Hf. now apply in_map.
  - exfalso. apply Hnotin. rewrite <- Hf. now apply in_map.
Qed.

Lemma length_flat_pairs {X Y : Type} (a b : X -> Y) (l : list X) :
  List.length (flat (map (fun x => [a x; b x]) l)) = (2 * List.length l)%nat.
Proof.
  unfold flat. induction l as [|x l IH]; simpl; [reflexivity|].
  rewrite IH. lia.
Qed.

Lemma mapM_length {X Y : Type} (f : X -> result Y) (l : list X) (l' : list Y) :
  mapM f l = Ok l' -> List.length l' = List.length l.
Proof.
  intros H. apply mapM_Forall2 in H. symmetry. exact (Forall2_length H).
Qed.

Lemma flat_all_nil {X Y : Type} (f : X -> list Y) (l : list X) :
  (forall x, In x l -> f x = []) -> flat (map f l) = [].
Proof.
  induction l as [|x l IH]; intros H; simpl; [reflexivity|].
  rewrite (H x (or_introl eq_refl)). simpl. apply IH.
  intros; apply H; now right.
Qed.

End MoreEdgeFacts.

(** X4. Every output edge is animated and of type ["floating"], and its id
    is its token id, its source and its target joined by ["-"]; so no two
    edges of the output agree on token, source and target. *)
Theorem X4_edge_identity :
  forall {rt : Runtime} (data : Query.t) (edges : list MyEdge.t),
    mapEdges data = Ok edges ->
    (forall e, In e edges ->
       MyEdge.id e
       = edgeId (EdgeToken.id (MyEdgeData.token (MyEdge.data e)))
                (MyEdge.source e) (MyEdge.target e)
       /\ MyEdge.animated e = true
       /\ MyEdge.type e = "floating")
    /\ (forall e e', In e edges -> In e' edges ->
          EdgeToken.id (MyEdgeData.token (MyEdge.data e))
          = EdgeToken.id (MyEdgeData.token (MyEdge.data e')) ->
          MyEdge.source e = MyEdge.source e' ->
          MyEdge.target e = MyEdge.target e' ->
          e = e').
Proof.
  intros rt data edges H.
  destruct (mapEdges_inv _ _ H) as (redundant & uniq & Hr & Hu & Hf).
  assert (Hshape : forall e, In e edges ->
             MyEdge.id e
             = edgeId (EdgeToken.id (MyEdgeData.token (MyEdge.data e)))
                      (MyEdge.source e) (MyEdge.target e)
             /\ MyEdge.animated e = true
             /\ MyEdge.type e = "floating").
  { intros e Hin. pose proof Hf as Hf'. apply mapM_Forall2 in Hf'.
    destruct (Forall2_In_r _ _ _ _ Hf' Hin) as (x & Hx & Hfx).
    destruct (fullEdge_cases _ _ _ Hfx) as (group & _ & ->). simpl.
    split; [|auto]. exact (uniqEdges_id _ _ _ _ Hr Hu Hx). }
  split; [exact Hshape|].
  intros e e' He He' Ht Hs Hd.
  apply (NoDup_map_In_inj MyEdge.id edges); auto.
  - exact (mapEdges_ids_NoDup _ _ H).
  - rewrite (proj1 (Hshape e He)), (proj1 (Hshape e' He')). congruence.
Qed.

(** X16. No relation is dropped: for every membership, stream and
    distributorship of the snapshot the output holds an edge whose id is
    the relation's token, source and target joined by ["-"]. *)
Theorem X16_every_relation_has_an_edge :
  forall {rt : Runtime} (data : Query.t) (edges : list MyEdge.t),
    mapEdges data = Ok edges ->
    (forall x, In x (allPoolMembers data) ->
       In (edgeId (Token.id (PoolRef.token (PoolMember.pool x)))
                  (PoolRef.id (PoolMember.pool x))
                  (AccountRef.id (PoolMember.account x)))
          (map MyEdge.id edges))
    /\ (forall x, In x (Query.streams data) ->
          In (edgeId (Token.id (Stream.token x))
                     (AccountRef.id (Stream.sender x))
                     (AccountRef.id (Stream.receiver x)))
             (map MyEdge.id edges))
    /\ (forall x, In x (allPoolDistributors data) ->
          In (edgeId (Token.id (PoolRef.token (PoolDistributor.pool x)))
                     (AccountRef.id (PoolDistributor.account x))
                     (PoolRef.id (PoolDistributor.pool x)))
             (map MyEdge.id edges)).
Proof.
  intros rt data edges H.
  destruct (mapEdges_inv _ _ H) as (redundant & uniq & Hr & Hu & Hf).
  assert (Hids : map MyEdge.id edges = map PartialEdge.id uniq).
  { symmetry. apply Forall2_map_eq.
    eapply Forall2_impl_In; [|exact (edgesWithFullData_inv _ _ Hf)].
    intros x e _ (_ & Hid & _). now symmetry. }
  assert (Hcand : forall c, In c redundant ->
                            In (PartialEdge.id c) (map MyEdge.id edges)).
  { intros c Hc. rewrite Hids.
    apply (dedup_key_In PartialEdge.id mergeEdges mergeEdges_key _ _ _ Hu).
    now apply in_map. }
  destruct (edgesButRedundant_inv _ _ Hr) as (ds & ms & ss & Hd & Hm & Hs & ->).
  repeat split; intros x Hx.
  - apply mapM_Forall2 in Hm.
    destruct (Forall2_In_l _ _ _ _ Hm Hx) as (c & Hc & Hxc).
    rewrite <- (proj1 (edgeFromPoolMember_id _ _ Hxc)).
    apply Hcand. rewrite !in_app_iff. auto.
  - apply mapM_Forall2 in Hs.
    destruct (Forall2_In_l _ _ _ _ Hs Hx) as (c & Hc & Hxc).
    rewrite <- (proj1 (edgeFromStream_id _ _ Hxc)).
    apply Hcand. rewrite !in_app_iff. auto.
  - apply mapM_Forall2 in Hd.
    destruct (Forall2_In_l _ _ _ _ Hd Hx) as (c & Hc & Hxc).
    rewrite <- (proj1 (edgeFromPoolDistributor_id _ _ Hxc)).
    apply Hcand. rewrite !in_app_iff. auto.
Qed.

(** X8. The guard of the proportional share is [units > 0], not
    [units != 0]: a membership with negative units also yields an edge of
    flow rate 0, from the pool to the member, and the pool's flow rate and
    total units are not converted. *)
Theorem X8_non_positive_units :
  forall {rt : Runtime} (x : PoolMember.t) (units : Z),
    BigInt (PoolMember.units x) = Ok units ->
    units <= 0 ->
    exists c,
      edgeFromPoolMember x = Ok c
      /\ EdgeData.flowRate (PartialEdge.data c) = 0
      /\ PartialEdge.source c = PoolRef.id (PoolMember.pool x)
      /\ PartialEdge.target c = AccountRef.id (PoolMember.account x).
Proof.
  intros rt x units Hu Hle. unfold edgeFromPoolMember.
  rewrite (memberFlowRate_not_positive x units Hu Hle). simpl.
  eexists. split; [reflexivity|]. simpl. auto.
Qed.

(** X9. With positive units the flow rate of a membership is the product
    of the pool's flow rate and total units divided by the units and
    truncated toward zero: multiplied back by the units it misses the
    product by less than the units and never exceeds it in magnitude. *)
Theorem X9_member_flow_rate_truncates :
  forall {rt : Runtime} (x : PoolMember.t) (units flowRate totalUnits : Z),
    BigInt (PoolMember.units x) = Ok units ->
    0 < units ->
    BigInt (PoolRef.flowRate (PoolMember.pool x)) = Ok flowRate ->
    BigInt (PoolRef.totalUnits (PoolMember.pool x)) = Ok totalUnits ->
    exists q,
      memberFlowRate x = Ok q
      /\ Z.abs (flowRate * totalUnits - units * q) < units
      /\ Z.abs (units * q) <= Z.abs (flowRate * totalUnits).
Proof.
  intros rt x units flowRate totalUnits Hu Hpos Hf Ht.
  exists (Z.quot (flowRate * totalUnits) units).
  split; [now apply memberFlowRate_positive|].
  set (a := flowRate * totalUnits).
  pose proof (Z.quot_rem' a units) as Hqr.
  destruct (Z.le_ge_cases 0 a) as [Ha|Ha].
  - pose proof (Z.rem_bound_pos_pos a units Hpos Ha).
    pose proof (Z.rem_le a units Ha Hpos). lia.
  - pose proof (Z.rem_bound_pos_neg a units Hpos Ha) as Hb.
    assert (Hge : a <= Z.rem a units).
    { pose proof (Z.rem_le (- a) units ltac:(lia) Hpos) as Hle.
      rewrite Z.rem_opp_l in Hle by lia. lia. }
    lia.
Qed.

(** X11. Deduplication only shrinks: a result has at most one node per
    selected account plus two per membership, distributorship and stream,
    and at most one edge per membership, stream and distributorship. *)
Theorem X11_graph_size_bounds :
  forall {rt : Runtime} (chain : number) (data : Query.t) (r : MyMappedData.t),
    dataMapper chain data = Ok r ->
    (List.length (MyMappedData.nodes r)
     <= List.length (Query.selectedAccounts data)
        + 2 * (List.length (allPoolMembers data)
               + List.length (allPoolDistributors data)
               + List.length (Query.streams data)))%nat
    /\ (List.length (MyMappedData.edges r)
        <= List.length (allPoolMembers data)
           + List.length (Query.streams data)
           + List.length (allPoolDistributors data))%nat.
Proof.
  intros rt chain data r H.
  destruct (dataMapper_inv _ _ _ H) as (Hn & He & _). split.
  - rewrite <- (length_map MyNode.id).
    transitivity (List.length (relatedIds data)).
    + apply NoDup_incl_length; [exact (mapNodes_NoDup _ _ _ Hn)|].
      intros a Ha. now apply (mapNodes_id_In _ _ _ a Hn).
    + unfold relatedIds. rewrite !length_app, length_map, !length_flat_pairs.
      unfold allPoolMembers, allPoolDistributors. lia.
  - destruct (mapEdges_inv _ _ He) as (redundant & uniq & Hr & Hu & Hf).
    destruct (edgesButRedundant_inv _ _ Hr) as (ds & ms & ss & Hd & Hm & Hs & ->).
    rewrite (mapM_length _ _ _ Hf).
    transitivity (List.length (ms ++ ss ++ ds)).
    + rewrite <- (length_map PartialEdge.id uniq),
        <- (length_map PartialEdge.id (ms ++ ss ++ ds)).
      apply NoDup_incl_length; [exact (uniqEdges_ids_NoDup _ _ Hu)|].
      intros a Ha.
      now apply (dedup_key_In PartialEdge.id mergeEdges mergeEdges_key _ _ _ Hu).
    + rewrite !length_app, (mapM_length _ _ _ Hm), (mapM_length _ _ _ Hs),
        (mapM_length _ _ _ Hd). lia.
Qed.

(** X13. A snapshot with no selected account, no membership, no
    distributorship and no stream, whose selected pools embed none
    either, maps to the empty graph as long as the head-block metadata is
    there: selected pools alone put nothing on the diagram. *)
Theorem X13_empty_graph :
  forall {rt : Runtime} (chain : number) (data : Query.t) (meta : Meta.t),
    Query.selectedAccounts data = [] ->
    Query.poolMembers data = [] ->
    Query.poolDistributors data = [] ->
    Query.streams data = [] ->
    (forall p, In p (Query.selectedPools data) ->
               Pool.poolMembers p = [] /\ Pool.poolDistributors p = []) ->
    Query._meta data = Some meta ->
    dataMapper chain data
    = Ok {| MyMappedData.nodes := [];
            MyMappedData.edges := [];
            MyMappedData.latestBlock := Some {|
              LatestBlock.number := Number (Block.number (Meta.block meta));
              LatestBlock.timestamp :=
                fromUnixTime (Block.timestamp (Meta.block meta)) |} |}.
Proof.
  intros rt chain data meta Ha Hm Hd Hs Hp Hmeta.
  assert (Em : allPoolMembers data = []).
  { unfold allPoolMembers. rewrite Hm. simpl. apply flat_all_nil.
    intros p Hin. now destruct (Hp p Hin). }
  assert (Ed : allPoolDistributors data = []).
  { unfold allPoolDistributors. rewrite Hd. simpl. apply flat_all_nil.
    intros p Hin. now destruct (Hp p Hin). }
  assert (En : mapNodes chain data = Ok []).
  { unfold mapNodes, uniqMergedNodes, nodesButRedundant, nodesFromAccounts,
      nodesFromPoolMembers, nodesFromPoolDistributors, nodesFromStreams.
    rewrite Ha, Em, Ed, Hs. reflexivity. }
  assert (Ee : mapEdges data = Ok []).
  { unfold mapEdges, edgesButRedundant, edgesFromPoolDistributors,
      edgesFromPoolMembers, edgesFromStreams.
    rewrite Em, Ed, Hs. reflexivity. }
  unfold dataMapper. rewrite En, Ee, Hmeta. reflexivity.
Qed.

(* ================================================================== *)
(** * Further facts: the order of the output *)
(* ================================================================== *)

Lemma existsb_eqb_In (k : string) (seen : list string) :
  existsb (String.eqb k) seen = true <-> In k seen.
Proof.
  rewrite existsb_exists. split.
  - intros [k' [Hin Heq]]. apply String.eqb_eq in Heq. now subst.
  - intros Hin. exists k. split; [assumption|apply String.eqb_refl].
Qed.

Lemma firstOccurrences_ext (seen seen' l : list string) :
  (forall k, In k seen <-> In k seen') ->
  firstOccurrences seen l = firstOccurrences seen' l.
Proof.
  revert seen seen'. induction l as [|k l IH]; intros seen seen' H; simpl;
    [reflexivity|].
  assert (E : existsb (String.eqb k) seen = existsb (String.eqb k) seen').
  { apply Bool.eq_iff_eq_true. rewrite !existsb_eqb_In. apply H. }
  rewrite E. destruct (existsb (String.eqb k) seen'); [now apply IH|].
  f_equal. apply IH. intros k'. simpl. now rewrite H.
Qed.

Section OrderFacts.

Context {A : Type}.
Variable f : A -> string.

Lemma keys_fold_pushGroup (l : list A) (o : object (list A)) :
  map fst (fold_left (fun o x => pushGroup (f x) x o) l o)
  = map fst o ++ firstOccurrences (map fst o) (map f l).
Proof.
  revert o. induction l as [|x l IH]; intros o; simpl.
  - now rewrite app_nil_r.
  - rewrite IH, keys_pushGroup.
    destruct (in_dec string_dec (f x) (map fst o)) as [Hin|Hout].
    + now rewrite (proj2 (existsb_eqb_In _ _) Hin).
    + destruct (existsb (String.eqb (f x)) (map fst o)) eqn:E;
        [apply existsb_eqb_In in E; contradiction|].
      rewrite <- app_assoc. simpl. do 2 f_equal.
      apply firstOccurrences_ext. intros k. rewrite in_app_iff. simpl. tauto.
Qed.

(** The keys of [groupBy] are created in the order in which the list
    first shows them. *)
Lemma keys_groupBy_order (l : list A) :
  map fst (groupBy l f) = firstOccurrences [] (map f l).
Proof.
  unfold groupBy. now rewrite keys_fold_pushGroup.
Qed.

End OrderFacts.

Lemma filter_index_none {V : Type} (o : object V) :
  (forall e, In e o -> arrayIndex (fst e) = None) ->
  filter isArrayIndex o = [] /\ filter (fun e => negb (isArrayIndex e)) o = o.
Proof.
  induction o as [|e o IH]; intros H; [auto|].
  assert (He : isArrayIndex e = false)
    by (unfold isArrayIndex; now rewrite (H e (or_introl eq_refl))).
  destruct IH as [IH1 IH2]; [intros; apply H; now right|].
  simpl. rewrite He. simpl. rewrite IH1, IH2. auto.
Qed.

(** Without array-index keys [Object.entries] follows creation order. *)
Lemma Object_entries_no_index {V : Type} (o : object V) :
  (forall e, In e o -> arrayIndex (fst e) = None) -> Object_entries o = o.
Proof.
  intros H. unfold Object_entries.
  destruct (filter_index_none o H) as [-> ->]. reflexivity.
Qed.

Lemma uint_of_string_dashFree (s : string) (u : Decimal.uint) :
  NilEmpty.uint_of_string s = Some u -> dashFree s = true.
Proof.
  revert u. induction s as [|c s IH]; intros u; simpl; [reflexivity|].
  destruct (NilEmpty.uint_of_string s) as [d|]; [|discriminate].
  intros H. rewrite (IH d eq_refl), andb_true_r.
  apply uint_of_char_spec in H.
  decompose [or and] H; subst; reflexivity.
Qed.

(** An array index is made of digits, so it holds no ["-"]. *)
Lemma arrayIndex_dashFree (s : string) (n : N) :
  arrayIndex s = Some n -> dashFree s = true.
Proof.
  unfold arrayIndex.
  destruct (NilEmpty.uint_of_string s) as [u|] eqn:E; [|discriminate].
  intros _. exact (uint_of_string_dashFree _ _ E).
Qed.

Lemma dashFree_append (a b : string) :
  dashFree (a ++ b)%string = dashFree a && dashFree b.
Proof.
  induction a as [|c a IH]; simpl; [reflexivity|].
  now rewrite IH, andb_assoc.
Qed.

Lemma edgeId_not_index (a b c : string) : arrayIndex (edgeId a b c) = None.
Proof.
  destruct (arrayIndex (edgeId a b c)) as [n|] eqn:E; [|reflexivity].
  apply arrayIndex_dashFree in E. unfold edgeId in E.
  rewrite dashFree_append in E. simpl in E.
  rewrite andb_false_r in E. discriminate.
Qed.

(** X5. The output edges come in the order in which the candidates,
    taken as memberships, then streams, then distributorships, first show
    each id: an edge id is never an array index, so the grouping keeps
    insertion order. *)
Theorem X5_edge_order :
  forall {rt : Runtime} (data : Query.t) (redundant : list PartialEdge.t)
         (edges : list MyEdge.t),
    edgesButRedundant data = Ok redundant ->
    mapEdges data = Ok edges ->
    map MyEdge.id edges = firstOccurrences [] (map PartialEdge.id redundant).
Proof.
  intros rt data redundant edges Hr H.
  destruct (mapEdges_inv _ _ H) as (redundant' & uniq & Hr' & Hu & Hf).
  assert (redundant' = redundant) by congruence. subst redundant'.
  assert (Hids : map MyEdge.id edges = map PartialEdge.id uniq).
  { symmetry. apply Forall2_map_eq.
    eapply Forall2_impl_In; [|exact (edgesWithFullData_inv _ _ Hf)].
    intros x e _ (_ & Hid & _). now symmetry. }
  rewrite Hids, (dedup_keys PartialEdge.id mergeEdges mergeEdges_key _ _ Hu).
  rewrite Object_entries_no_index; [apply keys_groupBy_order|].
  intros [k g] Hin. simpl.
  assert (Hk : In k (map PartialEdge.id redundant)).
  { apply keys_groupBy. change k with (fst (k, g)). now apply in_map. }
  apply in_map_iff in Hk. destruct Hk as (c & <- & Hc).
  rewrite (edgesButRedundant_id _ _ _ Hr Hc). apply edgeId_not_index.
Qed.

(** X15. When the address check lets no array index through, as the real
    one does, the output nodes come in the order in which the candidates
    first show each id: selected accounts, then pool and member of each
    membership, pool and distributor of each distributorship, receiver
    and sender of each stream. *)
Theorem X15_node_order :
  forall {rt : Runtime},
    (forall s a, getAddress s = Ok a -> arrayIndex s = None) ->
    forall (chain : number) (data : Query.t) (nodes : list MyNode.t),
      mapNodes chain data = Ok nodes ->
      map MyNode.id nodes = firstOccurrences [] (relatedIds data).
Proof.
  intros rt Haddr chain data nodes H.
  destruct (mapNodes_ids _ _ _ H) as (merged & Hm & ->).
  rewrite (dedup_keys PartialNode.id mergeNodes mergeNodes_key _ _ Hm).
  rewrite <- nodesButRedundant_ids.
  rewrite Object_entries_no_index; [apply keys_groupBy_order|].
  intros [k g] Hin. simpl.
  assert (Hk : In k (map PartialNode.id (nodesButRedundant data))).
  { apply keys_groupBy. change k with (fst (k, g)). now apply in_map. }
  rewrite nodesButRedundant_ids in Hk.
  destruct (mapNodes_addresses _ _ _ _ H Hk) as [a Ha].
  exact (Haddr _ _ Ha).
Qed.

(* ================================================================== *)
(** * Further facts: positions among parallel edges *)
(* ================================================================== *)

Section PositionFacts.

Context {X : Type}.
Variable eqb : X -> X -> bool.
Hypothesis eqb_eq : forall a b, eqb a b = true <-> a = b.

(** In a selection of a list, the first occurrence of [x] sits after the
    selected elements that precede it. *)
Lemma indexOf_filter_prefix (p : X -> bool) (pre post : list X) (x : X) :
  ~ In x pre -> p x = true ->
  indexOf eqb x (filter p (pre ++ x :: post)) = length_of (filter p pre).
Proof.
  unfold length_of. intros Hout Hp.
  induction pre as [|a pre IH]; simpl.
  - rewrite Hp. simpl. now rewrite (proj2 (eqb_eq x x) eq_refl).
  - assert (Ha : a <> x) by (intros ->; apply Hout; now left).
    assert (IH' := IH (fun H => Hout (or_intror H))).
    destruct (p a); [|exact IH']. cbn [indexOf List.length].
    destruct (eqb a x) eqn:E; [apply eqb_eq in E; contradiction|].
    rewrite IH'.
    destruct (Z.ltb_spec (Z.of_nat (List.length (filter p pre))) 0); lia.
Qed.

End PositionFacts.

Section MapperPositionFacts.

Context {rt : Runtime}.

(** Every endpoint of a returned edge passed the address check. *)
Lemma dataMapper_edges_dashFree (chain : number) (data : Query.t)
      (r : MyMappedData.t) :
  (forall s a, getAddress s = Ok a -> dashFree s = true) ->
  dataMapper chain data = Ok r ->
  forall e, In e (MyMappedData.edges r) ->
    dashFree (MyEdge.source e) = true /\ dashFree (MyEdge.target e) = true.
Proof.
  intros Haddr H e Hin.
  destruct (dataMapper_inv _ _ _ H) as (Hn & He & _).
  destruct (mapEdges_endpoints _ _ _ He Hin) as [Hs Ht].
  destruct (mapNodes_addresses _ _ _ _ Hn Hs) as [cs Hcs].
  destruct (mapNodes_addresses _ _ _ _ Hn Ht) as [ct Hct].
  split; eapply Haddr; eassumption.
Qed.

End MapperPositionFacts.

(** X6. In every edge list the mapper returns, where each id passed the
    address check and so holds no ["-"], the index of an edge is the
    number of edges before it in the list that join the same unordered
    pair of endpoints: parallel edges are numbered 0, 1, 2, ... in output
    order. *)
Theorem X6_index_counts_earlier_edges :
  forall {rt : Runtime},
    (forall s a, getAddress s = Ok a -> dashFree s = true) ->
    forall (chain : number) (data : Query.t) (r : MyMappedData.t)
           (pre post : list MyEdge.t) (e : MyEdge.t),
      dataMapper chain data = Ok r ->
      MyMappedData.edges r = pre ++ e :: post ->
      edgeIndex e = length_of (filter (samePairb e) pre).
Proof.
  intros rt Haddr chain data r pre post e H Hsplit.
  pose proof (dataMapper_edges_dashFree _ _ _ Haddr H) as Hdash.
  destruct (dataMapper_inv _ _ _ H) as (_ & He & _).
  destruct (mapEdges_inv _ _ He) as (redundant & uniq & _ & Hu & Hf).
  pose proof (edgesWithFullData_inv _ _ Hf) as HF.
  rewrite Hsplit in HF, Hdash.
  apply Forall2_app_inv_r in HF.
  destruct HF as (upre & urest & HFpre & HFrest & Huniq).
  inversion HFrest as [|x e0 upost post0 Hxe HFpost]; subst.
  destruct Hxe as (_ & _ & Hs & Ht & _ & _ & Hidx).
  assert (Hout : ~ In x upre).
  { pose proof (uniqEdges_ids_NoDup _ _ Hu) as Hnd.
    rewrite map_app in Hnd. simpl in Hnd.
    apply NoDup_remove_2 in Hnd. intros Hin. apply Hnd.
    rewrite in_app_iff. left. now apply in_map. }
  rewrite Hidx. unfold keyed.
  rewrite (indexOf_filter_prefix _ PartialEdge_eqb_eq); auto using String.eqb_refl.
  unfold length_of. f_equal.
  apply (Forall2_filter_length _ _ _ _ _ HFpre).
  intros y e' Hy He' (_ & _ & Hsy & Hty & _).
  destruct (Hdash e) as [D1 D2]; [rewrite in_app_iff; simpl; auto|].
  destruct (Hdash e') as [D3 D4]; [rewrite in_app_iff; auto|].
  apply Bool.eq_iff_eq_true.
  rewrite String.eqb_eq, samePairb_true_iff, pairKey_eq_iff by congruence.
  rewrite Hs, Ht, Hsy, Hty. intuition congruence.
Qed.

(** X10. A membership listed both in the flat list and inside a selected
    pool is counted twice. When the snapshot holds just this membership,
    once in each place, the single edge from the pool to the member
    carries twice the membership's flow rate. *)
Theorem X10_duplicated_membership_doubles :
  forall {rt : Runtime} (data : Query.t) (p : Pool.t) (x : PoolMember.t) (q : Z),
    memberFlowRate x = Ok q ->
    Query.poolMembers data = [x] ->
    Query.selectedPools data = [p] ->
    Pool.poolMembers p = [x] ->
    Pool.poolDistributors p = [] ->
    Query.poolDistributors data = [] ->
    Query.streams data = [] ->
    exists e,
      mapEdges data = Ok [e]
      /\ MyEdgeData.flowRate (MyEdge.data e) = 2 * q
      /\ MyEdge.source e = PoolRef.id (PoolMember.pool x)
      /\ MyEdge.target e = AccountRef.id (PoolMember.account x)
      /\ edgeLength e = 1
      /\ edgeIndex e = 0.
Proof.
  intros rt data p x q Hq Hm Hp Hpm Hpd Hd Hs.
  destruct (edgeFromPoolMember x) as [c|] eqn:Hc;
    [|unfold edgeFromPoolMember in Hc; rewrite Hq in Hc; discriminate].
  destruct (edgeFromPoolMember_inv _ _ Hc) as (Hflow & Hsrc & Htgt).
  assert (Hcq : EdgeData.flowRate (PartialEdge.data c) = q) by congruence.
  assert (Hr : edgesButRedundant data = Ok [c; c]).
  { unfold edgesButRedundant, edgesFromPoolDistributors, edgesFromPoolMembers,
      edgesFromStreams, allPoolDistributors, allPoolMembers.
    rewrite Hm, Hp, Hd, Hs. simpl. rewrite Hpm, Hpd. simpl.
    rewrite Hc. reflexivity. }
  set (m := {| PartialEdge.id := PartialEdge.id c;
               PartialEdge.source := PartialEdge.source c;
               PartialEdge.target := PartialEdge.target c;
               PartialEdge.data := {|
                 EdgeData.token := EdgeData.token (PartialEdge.data c);
                 EdgeData.flowRate := 0 + q + q |} |}).
  assert (Hu : uniqEdges [c; c] = Ok [m]).
  { unfold uniqEdges, groupBy. simpl. rewrite String.eqb_refl. simpl.
    rewrite Object_entries_no_index.
    - simpl. now rewrite Hcq.
    - intros e [<-|[]]. simpl.
      rewrite (edgesButRedundant_id _ _ c Hr (or_introl eq_refl)).
      apply edgeId_not_index. }
  assert (Hf : edgesWithFullData [m] = Ok
            [{| MyEdge.id := PartialEdge.id m;
                MyEdge.source := PartialEdge.source m;
                MyEdge.target := PartialEdge.target m;
                MyEdge.animated := true;
                MyEdge.type := "floating";
                MyEdge.data := {|
                  MyEdgeData.token := EdgeData.token (PartialEdge.data m);
                  MyEdgeData.flowRate := EdgeData.flowRate (PartialEdge.data m);
                  MyEdgeData.something := {|
                    Something.length := 1; Something.index := 0 |} |} |}]).
  { unfold edgesWithFullData, groupBy, fullEdge.
    cbn [fold_left pushGroup mapM get].
    rewrite String.eqb_refl. cbn [indexOf].
    rewrite (proj2 (PartialEdge_eqb_eq m m) eq_refl). reflexivity. }
  eexists. split.
  - unfold mapEdges. rewrite Hr. simpl bind. rewrite Hu. simpl bind. exact Hf.
  - unfold edgeLength, edgeIndex.
    cbn [MyEdge.data MyEdge.source MyEdge.target MyEdgeData.flowRate
         MyEdgeData.something Something.length Something.index].
    subst m. cbn [PartialEdge.data PartialEdge.source PartialEdge.target
                  EdgeData.flowRate].
    repeat split; auto. lia.
Qed.

(* ================================================================== *)
(** * Further facts: what is merged, what is marked *)
(* ================================================================== *)

(** An edge id splits back into its three parts when the first two hold
    no ["-"]. *)
Lemma edgeId_inj (t a b t' a' b' : string) :
  dashFree t = true -> dashFree t' = true ->
  dashFree a = true -> dashFree a' = true ->
  edgeId t a b = edgeId t' a' b' -> t = t' /\ a = a' /\ b = b'.
Proof.
  intros Ht Ht' Ha Ha' H. unfold edgeId in H.
  apply join_dash_inj in H; try assumption. destruct H as [-> H].
  apply join_dash_inj in H; try assumption. tauto.
Qed.

(** X17. Two candidate edges whose token ids and sources hold no ["-"]
    carry the same id, and so are merged into one edge, exactly when they
    agree on token id, source and target; in particular a flow from A to B
    is never merged with a flow from B to A. *)
Theorem X17_merged_iff_same_triple :
  forall {rt : Runtime} (data : Query.t) (redundant : list PartialEdge.t)
         (c c' : PartialEdge.t),
    edgesButRedundant data = Ok redundant ->
    In c redundant -> In c' redundant ->
    dashFree (EdgeToken.id (EdgeData.token (PartialEdge.data c))) = true ->
    dashFree (EdgeToken.id (EdgeData.token (PartialEdge.data c'))) = true ->
    dashFree (PartialEdge.source c) = true ->
    dashFree (PartialEdge.source c') = true ->
    (PartialEdge.id c = PartialEdge.id c' <->
     EdgeToken.id (EdgeData.token (PartialEdge.data c))
     = EdgeToken.id (EdgeData.token (PartialEdge.data c'))
     /\ PartialEdge.source c = PartialEdge.source c'
     /\ PartialEdge.target c = PartialEdge.target c').
Proof.
  intros rt data redundant c c' Hr Hc Hc' Dt Dt' Ds Ds'.
  rewrite (edgesButRedundant_id _ _ _ Hr Hc), (edgesButRedundant_id _ _ _ Hr Hc').
  split.
  - now apply edgeId_inj.
  - intros (-> & -> & ->). reflexivity.
Qed.

Section MarkFacts.

Context {rt : Runtime}.

(** A candidate has a node with its id, which carries every flag the
    candidate raises. *)
Lemma candidate_has_node (chain : number) (data : Query.t) (nodes : list MyNode.t)
      (c : PartialNode.t) :
  mapNodes chain data = Ok nodes ->
  In c (nodesButRedundant data) ->
  exists n,
    In n nodes
    /\ MyNode.id n = PartialNode.id c
    /\ (NodeData.isPool (PartialNode.data c) = Some true ->
        MyNodeData.isPool (MyNode.data n) = Some true)
    /\ (NodeData.isSelected (PartialNode.data c) = Some true ->
        MyNodeData.isSelected (MyNode.data n) = Some true).
Proof.
  intros H Hc.
  assert (Hid : In (PartialNode.id c) (map MyNode.id nodes)).
  { apply (mapNodes_id_In _ _ _ _ H). rewrite <- nodesButRedundant_ids.
    now apply in_map. }
  apply in_map_iff in Hid. destruct Hid as (n & Hid & Hn).
  exists n. split; [exact Hn|]. split; [exact Hid|].
  destruct (mapNodes_group _ _ _ _ H Hn) as (m & Hm & Hf).
  destruct (fullNode_inv _ _ _ Hf) as (_ & -> & _ & ->).
  assert (Hg : In c (keyed PartialNode.id (MyNode.id n) (nodesButRedundant data)))
    by (apply In_keyed; auto).
  destruct (mergeNodes_flags_up _ _ c Hm Hg) as (Hp & _ & Hs). auto.
Qed.

End MarkFacts.

(** X18. Every selected account has an output node marked as selected,
    and the pool of every membership and of every distributorship, flat
    or embedded in a selected pool, has an output node marked as a pool. *)
Theorem X18_selected_and_pools_are_marked :
  forall {rt : Runtime} (chain : number) (data : Query.t) (nodes : list MyNode.t),
    mapNodes chain data = Ok nodes ->
    (forall x, In x (Query.selectedAccounts data) ->
       exists n, In n nodes /\ MyNode.id n = Account.id x
                 /\ MyNodeData.isSelected (MyNode.data n) = Some true)
    /\ (forall x, In x (allPoolMembers data) ->
          exists n, In n nodes /\ MyNode.id n = PoolRef.id (PoolMember.pool x)
                    /\ MyNodeData.isPool (MyNode.data n) = Some true)
    /\ (forall x, In x (allPoolDistributors data) ->
          exists n, In n nodes /\ MyNode.id n = PoolRef.id (PoolDistributor.pool x)
                    /\ MyNodeData.isPool (MyNode.data n) = Some true).
Proof.
  intros rt chain data nodes H. repeat split; intros x Hx.
  - destruct (candidate_has_node chain data nodes (nodeFromAccount x) H)
      as (n & Hn & Hid & _ & Hs).
    + unfold nodesButRedundant, nodesFromAccounts. rewrite in_app_iff. left.
      now apply in_map.
    + exists n. auto.
  - destruct (candidate_has_node chain data nodes
                (nodeFromPoolRef (PoolMember.pool x)) H)
      as (n & Hn & Hid & Hp & _).
    + unfold nodesButRedundant, nodesFromPoolMembers.
      rewrite !in_app_iff, In_flat_map. right. left. exists x. simpl. auto.
    + exists n. auto.
  - destruct (candidate_has_node chain data nodes
                (nodeFromPoolRef (PoolDistributor.pool x)) H)
      as (n & Hn & Hid & Hp & _).
    + unfold nodesButRedundant, nodesFromPoolDistributors.
      rewrite !in_app_iff, In_flat_map. right. right. left. exists x. simpl. auto.
    + exists n. auto.
Qed.

(* ================================================================== *)
(** * The further properties at work on the sample snapshots *)
(* ================================================================== *)

(** The sample address check, like the real one, lets no array index
    through: an address starts with ["0x"]. *)
Lemma Sample_getAddress_not_index (s a : string) :
  @getAddress Sample.runtime s = Ok a -> arrayIndex s = None.
Proof.
  simpl. unfold Sample.getAddress.
  destruct (Sample.isAddress s) eqn:E; [|discriminate]. intros _.
  destruct s as [|c0 [|c1 hex]]; try discriminate.
  unfold Sample.isAddress in E. rewrite !andb_true_iff in E.
  destruct E as [[[H0 H1] _] _].
  apply Ascii.eqb_eq in H0, H1. subst c0 c1.
  unfold arrayIndex. simpl.
  destruct (NilEmpty.uint_of_string hex); reflexivity.
Qed.

Lemma X1_witness :
  exists nodes n,
    @mapNodes Sample.runtime (Fin 1) Sample.mixedSnapshot = Ok nodes
    /\ In n nodes
    /\ MyNode.id n = Sample.bob
    /\ num_leb (MyNodeData.createdAtBlockNumber (MyNode.data n)) (Fin 30) = true
    /\ num_leb (MyNodeData.createdAtTimestamp (MyNode.data n)) (Fin 3000) = true
    /\ num_leb (Fin 40) (MyNodeData.updatedAtBlockNumber (MyNode.data n)) = true
    /\ num_leb (Fin 4000) (MyNodeData.updatedAtTimestamp (MyNode.data n)) = true.
Proof.
  destruct (@mapNodes Sample.runtime (Fin 1) Sample.mixedSnapshot)
    as [nodes|e] eqn:E; [|vm_compute in E; discriminate].
  assert (Hn : exists n, In n nodes /\ MyNode.id n = Sample.bob).
  { vm_compute in E. injection E as <-. eexists. split; [left; reflexivity|reflexivity]. }
  destruct Hn as [n [Hin Hid]]. exists nodes, n.
  split; [reflexivity|]. split; [exact Hin|]. split; [exact Hid|].
  apply (@X1_merged_stamps_bound Sample.runtime (Fin 1) Sample.mixedSnapshot nodes n
           (@nodeFromStreamParty Sample.runtime
              (Sample.stream Sample.alice Sample.bob "100")
              (Sample.account Sample.bob)) E Hin).
  - vm_compute. tauto.
  - now rewrite Hid.
  - intros c' Hc' _. vm_compute in Hc'.
    repeat (destruct Hc' as [<-|Hc']; [repeat split; discriminate|]).
    contradiction.
Defined.

Lemma X2_witness :
  Account.accountTokenSnapshots Sample.trackedAccount <> []
  /\ exists y,
       In y (Account.accountTokenSnapshots Sample.trackedAccount)
       /\ NodeData.createdAtBlockNumber
            (PartialNode.data (@nodeFromAccount Sample.runtime Sample.trackedAccount))
          = @Number Sample.runtime (AccountTokenSnapshot.createdAtBlockNumber y).
Proof.
  split; [discriminate|].
  apply (@X2_account_stamps_from_snapshots Sample.runtime Sample.trackedAccount).
  - discriminate.
  - intros y [<-|[<-|[]]]; repeat split; discriminate.
Defined.

Lemma X3_witness :
  exists r,
    @dataMapper Sample.runtime (Fin 1) Sample.mixedSnapshot = Ok r
    /\ (forall a, In a (relatedIds Sample.mixedSnapshot) ->
                  exists c, @getAddress Sample.runtime a = Ok c)
    /\ (forall x, In x (@allPoolMembers Sample.mixedSnapshot) ->
                  @memberConvertible Sample.runtime x)
    /\ Query._meta Sample.mixedSnapshot <> None.
Proof.
  destruct (@dataMapper Sample.runtime (Fin 1) Sample.mixedSnapshot)
    as [r|e] eqn:E; [|vm_compute in E; discriminate].
  exists r. split; [reflexivity|].
  destruct (proj1 (@X3_dataMapper_returns_only_if Sample.runtime (Fin 1)
                     Sample.mixedSnapshot) r E)
    as (Ha & _ & Hm & _ & Hmeta).
  split; [exact Ha|]. split; [exact Hm|exact Hmeta].
Defined.

Lemma X4_witness :
  exists edges,
    @mapEdges Sample.runtime Sample.mixedSnapshot = Ok edges
    /\ edges <> []
    /\ forall e, In e edges ->
         MyEdge.id e
         = edgeId (EdgeToken.id (MyEdgeData.token (MyEdge.data e)))
                  (MyEdge.source e) (MyEdge.target e)
         /\ MyEdge.animated e = true
         /\ MyEdge.type e = "floating".
Proof.
  destruct (@mapEdges Sample.runtime Sample.mixedSnapshot)
    as [edges|e] eqn:E; [|vm_compute in E; discriminate].
  exists edges. split; [reflexivity|]. split.
  - intros ->. vm_compute in E. discriminate.
  - exact (proj1 (@X4_edge_identity Sample.runtime Sample.mixedSnapshot edges E)).
Defined.

Lemma X5_witness :
  exists redundant edges,
    @edgesButRedundant Sample.runtime Sample.mixedSnapshot = Ok redundant
    /\ @mapEdges Sample.runtime Sample.mixedSnapshot = Ok edges
    /\ map MyEdge.id edges = firstOccurrences [] (map PartialEdge.id redundant).
Proof.
  destruct (@edgesButRedundant Sample.runtime Sample.mixedSnapshot)
    as [redundant|e] eqn:Er; [|vm_compute in Er; discriminate].
  destruct (@mapEdges Sample.runtime Sample.mixedSnapshot)
    as [edges|e] eqn:Ee; [|vm_compute in Ee; discriminate].
  exists redundant, edges. split; [reflexivity|]. split; [reflexivity|].
  exact (@X5_edge_order Sample.runtime Sample.mixedSnapshot redundant edges Er Ee).
Defined.

Lemma X6_witness :
  exists r pre e post,
    @dataMapper Sample.runtime (Fin 1) Sample.twoWaySnapshot = Ok r
    /\ MyMappedData.edges r = pre ++ e :: post
    /\ pre <> []
    /\ edgeIndex e = length_of (filter (samePairb e) pre).
Proof.
  destruct (@dataMapper Sample.runtime (Fin 1) Sample.twoWaySnapshot)
    as [r|e] eqn:E; [|vm_compute in E; discriminate].
  assert (Hs : exists pre e post,
             MyMappedData.edges r = pre ++ e :: post /\ pre <> []).
  { vm_compute in E. injection E as <-.
    eexists (_ :: nil), _, nil. split; [reflexivity|discriminate]. }
  destruct Hs as (pre & e & post & Hsplit & Hne).
  exists r, pre, e, post. split; [reflexivity|]. split; [exact Hsplit|].
  split; [exact Hne|].
  exact (@X6_index_counts_earlier_edges Sample.runtime Sample_getAddress_dashFree
           (Fin 1) Sample.twoWaySnapshot r pre post e E Hsplit).
Defined.

Lemma X7_witness :
  exists nodes n,
    @mapNodes Sample.runtime (Fin 1) Sample.mixedSnapshot = Ok nodes
    /\ In n nodes
    /\ MyNode.id n = Sample.bob
    /\ (MyNodeData.isSelected (MyNode.data n) = Some true <->
        exists c, In c (@nodesButRedundant Sample.runtime Sample.mixedSnapshot)
                  /\ PartialNode.id c = MyNode.id n
                  /\ NodeData.isSelected (PartialNode.data c) = Some true).
Proof.
  destruct (@mapNodes Sample.runtime (Fin 1) Sample.mixedSnapshot)
    as [nodes|e] eqn:E; [|vm_compute in E; discriminate].
  assert (Hn : exists n, In n nodes /\ MyNode.id n = Sample.bob).
  { vm_compute in E. injection E as <-. eexists. split; [left; reflexivity|reflexivity]. }
  destruct Hn as [n [Hin Hid]]. exists nodes, n.
  split; [reflexivity|]. split; [exact Hin|]. split; [exact Hid|].
  exact (proj2 (proj2 (@X7_flags_exact Sample.runtime (Fin 1) Sample.mixedSnapshot
                         nodes n E Hin))).
Defined.

Lemma X8_witness :
  @BigInt Sample.runtime (PoolMember.units Sample.indebtedMember) = Ok (-5)
  /\ exists c,
       @edgeFromPoolMember Sample.runtime Sample.indebtedMember = Ok c
       /\ EdgeData.flowRate (PartialEdge.data c) = 0
       /\ PartialEdge.source c = Sample.poolC
       /\ PartialEdge.target c = Sample.bob.
Proof.
  split; [reflexivity|].
  apply (@X8_non_positive_units Sample.runtime Sample.indebtedMember (-5)).
  - reflexivity.
  - lia.
Defined.

Lemma X9_witness :
  exists q,
    @memberFlowRate Sample.runtime Sample.drainingMember = Ok q
    /\ Z.abs (-7 * 2 - 3 * q) < 3
    /\ Z.abs (3 * q) <= Z.abs (-7 * 2).
Proof.
  apply (@X9_member_flow_rate_truncates Sample.runtime Sample.drainingMember
           3 (-7) 2).
  - reflexivity.
  - lia.
  - reflexivity.
  - reflexivity.
Defined.

Lemma X10_witness :
  exists e,
    @mapEdges Sample.runtime Sample.membershipSnapshot = Ok [e]
    /\ MyEdgeData.flowRate (MyEdge.data e) = 2 * 4000
    /\ MyEdge.source e = Sample.poolC
    /\ MyEdge.target e = Sample.alice
    /\ edgeLength e = 1
    /\ edgeIndex e = 0.
Proof.
  apply (@X10_duplicated_membership_doubles Sample.runtime Sample.membershipSnapshot
           (Sample.selectedPool Sample.poolC [Sample.member50] [])
           Sample.member50 4000); reflexivity.
Defined.

Lemma X11_witness :
  exists r,
    @dataMapper Sample.runtime (Fin 1) Sample.mixedSnapshot = Ok r
    /\ (List.length (MyMappedData.nodes r) <= 1 + 2 * (2 + 2 + 2))%nat
    /\ (List.length (MyMappedData.edges r) <= 2 + 2 + 2)%nat.
Proof.
  destruct (@dataMapper Sample.runtime (Fin 1) Sample.mixedSnapshot)
    as [r|e] eqn:E; [|vm_compute in E; discriminate].
  exists r. split; [reflexivity|].
  exact (@X11_graph_size_bounds Sample.runtime (Fin 1) Sample.mixedSnapshot r E).
Defined.

Lemma X12_witness :
  exists nodes n,
    @mapNodes Sample.runtime (Fin 1) Sample.mixedSnapshot = Ok nodes
    /\ In n nodes
    /\ @getAddress Sample.runtime (MyNode.id n)
       = Ok (MyNodeData.address (MyNode.data n))
    /\ MyNodeData.label (MyNode.data n)
       = @shortenHex Sample.runtime (MyNodeData.address (MyNode.data n))
    /\ MyNodeData.chain (MyNode.data n) = Fin 1
    /\ MyNode.type n = "custom"
    /\ MyNode.position n = {| Position.x := 0; Position.y := 0 |}.
Proof.
  destruct (@mapNodes Sample.runtime (Fin 1) Sample.mixedSnapshot)
    as [nodes|e] eqn:E; [|vm_compute in E; discriminate].
  assert (Hn : exists n, In n nodes).
  { vm_compute in E. injection E as <-. eexists. left. reflexivity. }
  destruct Hn as [n Hin]. exists nodes, n.
  split; [reflexivity|]. split; [exact Hin|].
  exact (@X12_node_finalization Sample.runtime (Fin 1) Sample.mixedSnapshot
           nodes n E Hin).
Defined.

Lemma X13_witness :
  Query.selectedPools Sample.barePoolSnapshot <> []
  /\ exists r,
       @dataMapper Sample.runtime (Fin 1) Sample.barePoolSnapshot = Ok r
       /\ MyMappedData.nodes r = []
       /\ MyMappedData.edges r = [].
Proof.
  split; [discriminate|].
  eexists. split.
  - apply (@X13_empty_graph Sample.runtime (Fin 1) Sample.barePoolSnapshot
             {| Meta.block := {| Block.number := VNum (Fin 500);
                                 Block.timestamp := Some (VNum (Fin 1700010000)) |} |});
      try reflexivity.
    intros p [<-|[]]. split; reflexivity.
  - split; reflexivity.
Defined.

Lemma X14_witness :
  exists nodes n,
    @mapNodes Sample.runtime (Fin 1) Sample.bareAccountSnapshot = Ok nodes
    /\ In n nodes
    /\ MyNodeData.isPool (MyNode.data n) = None
    /\ MyNodeData.isSelected (MyNode.data n) = Some true.
Proof.
  destruct (@mapNodes Sample.runtime (Fin 1) Sample.bareAccountSnapshot)
    as [nodes|e] eqn:E; [|vm_compute in E; discriminate].
  assert (Hn : exists n, In n nodes /\ MyNode.id n = Sample.alice).
  { vm_compute in E. injection E as <-. eexists. split; [left; reflexivity|reflexivity]. }
  destruct Hn as [n [Hin Hid]]. exists nodes, n.
  split; [reflexivity|]. split; [exact Hin|].
  destruct (proj1 (@X14_single_source_kept Sample.runtime (Fin 1)
                     Sample.bareAccountSnapshot nodes n E Hin)
                  (@nodeFromAccount Sample.runtime
                     (Sample.selectedAccount Sample.alice [])))
    as (Hp & _ & Hs & _).
  - rewrite Hid. reflexivity.
  - split; [exact Hp|exact Hs].
Defined.

Lemma X15_witness :
  exists nodes,
    @mapNodes Sample.runtime (Fin 1) Sample.mixedSnapshot = Ok nodes
    /\ map MyNode.id nodes = [Sample.bob; Sample.poolC; Sample.alice].
Proof.
  destruct (@mapNodes Sample.runtime (Fin 1) Sample.mixedSnapshot)
    as [nodes|e] eqn:E; [|vm_compute in E; discriminate].
  exists nodes. split; [reflexivity|].
  rewrite (@X15_node_order Sample.runtime Sample_getAddress_not_index (Fin 1)
             Sample.mixedSnapshot nodes E).
  reflexivity.
Defined.

Lemma X16_witness :
  exists edges,
    @mapEdges Sample.runtime Sample.mixedSnapshot = Ok edges
    /\ In (edgeId Sample.tokenD Sample.alice Sample.bob) (map MyEdge.id edges).
Proof.
  destruct (@mapEdges Sample.runtime Sample.mixedSnapshot)
    as [edges|e] eqn:E; [|vm_compute in E; discriminate].
  exists edges. split; [reflexivity|].
  apply (proj1 (proj2 (@X16_every_relation_has_an_edge Sample.runtime
                         Sample.mixedSnapshot edges E))
               (Sample.stream Sample.alice Sample.bob "100")).
  simpl. auto.
Defined.

Lemma X17_witness :
  exists redundant c c',
    @edgesButRedundant Sample.runtime Sample.twoWaySnapshot = Ok redundant
    /\ In c redundant /\ In c' redundant
    /\ PartialEdge.source c = PartialEdge.target c'
    /\ PartialEdge.target c = PartialEdge.source c'
    /\ PartialEdge.id c <> PartialEdge.id c'.
Proof.
  destruct (@edgesButRedundant Sample.runtime Sample.twoWaySnapshot)
    as [redundant|e] eqn:E; [|vm_compute in E; discriminate].
  assert (Hc : exists c c',
             In c redundant /\ In c' redundant
             /\ PartialEdge.source c = Sample.alice
             /\ PartialEdge.target c = Sample.bob
             /\ PartialEdge.source c' = Sample.bob
             /\ PartialEdge.target c' = Sample.alice
             /\ EdgeToken.id (EdgeData.token (PartialEdge.data c)) = Sample.tokenD
             /\ EdgeToken.id (EdgeData.token (PartialEdge.data c')) = Sample.tokenD).
  { vm_compute in E. injection E as <-. eexists _, _.
    split; [left; reflexivity|]. split; [right; left; reflexivity|].
    repeat split; reflexivity. }
  destruct Hc as (c & c' & Hc & Hc' & Hs & Ht & Hs' & Ht' & Hk & Hk').
  exists redundant, c, c'. split; [reflexivity|].
  split; [exact Hc|]. split; [exact Hc'|].
  split; [congruence|]. split; [congruence|].
  intros Hid.
  apply (@X17_merged_iff_same_triple Sample.runtime Sample.twoWaySnapshot
           redundant c c' E Hc Hc') in Hid.
  - destruct Hid as (_ & Hsrc & _). rewrite Hs, Hs' in Hsrc. discriminate.
  - rewrite Hk. reflexivity.
  - rewrite Hk'. reflexivity.
  - rewrite Hs. reflexivity.
  - rewrite Hs'. reflexivity.
Defined.

Lemma X18_witness :
  exists nodes n,
    @mapNodes Sample.runtime (Fin 1) Sample.mixedSnapshot = Ok nodes
    /\ In n nodes
    /\ MyNode.id n = Sample.poolC
    /\ MyNodeData.isPool (MyNode.data n) = Some true.
Proof.
  destruct (@mapNodes Sample.runtime (Fin 1) Sample.mixedSnapshot)
    as [nodes|e] eqn:E; [|vm_compute in E; discriminate].
  destruct (proj1 (proj2 (@X18_selected_and_pools_are_marked Sample.runtime (Fin 1)
                            Sample.mixedSnapshot nodes E))
                  Sample.member0)
    as (n & Hn & Hid & Hp).
  - simpl. auto.
  - exists nodes, n. auto.
Defined.
